(** * ZAIVA: the Gemini Live session client ([src/services/geminiLive.ts])

    A shallow embedding of [GeminiLiveService]: the PCM audio codec of
    [convertAudioToPCM] and [pcmToAudioBuffer], the playback queue of
    [handleAudioResponse], [playNextAudio] and [stopAudioPlayback], the
    inbound dispatch of [handleMessage], [handleServerContent] and
    [extractCitations], and the outbound [sendTextMessage],
    [sendAudioMessage] and [disconnect].

    The service is a JavaScript object mutated by event handlers that run
    one at a time on the event loop.  It is modelled by explicit state
    passing: every method is a function from the service state to a new
    state, the trace of effects it performed, and a completion (normal or
    thrown).  A method that awaits is suspended there while the event
    loop runs other handlers and calls; [sendAudioMessage], the only
    method that reads a field after an await, takes what runs meanwhile as
    an argument.  The platform functions the code calls ([Math.min], the typed
    array conversions, [atob], [btoa], the Web Audio nodes) are modelled
    after their standards in the modules [JS], [Base64] and [WebAudio]. *)

From Stdlib Require Import ZArith QArith Qabs Lqa PeanoNat.
From Stdlib Require Import List String Ascii Bool Lia.
Import ListNotations.


Close Scope Q_scope.
Set Warnings "-register-all".

(* ================================================================== *)
(** * JavaScript numbers and typed arrays *)
(* ================================================================== *)

Module JS.

(** A JavaScript number.  The finite ones are carried as rationals: the
    samples of a [Float32Array] are binary32 values, their product with
    [32767] is evaluated in binary64 and is exact there (24 + 15
    significant bits), and so is a quotient of an int16 by the power of two
    [32768].  On these values rational arithmetic computes exactly what the
    code computes.  Negative zero is identified with zero: every operation
    below sends both to the same result. *)
Inductive number : Type :=
| NaN
| Infinity (negative : bool)
| Fin (q : Q).

Definition num_leb (a b : number) : bool :=
  match a, b with
  | NaN, _ | _, NaN => false
  | Infinity true, _ => true
  | _, Infinity false => true
  | Infinity false, _ => false
  | _, Infinity true => false
  | Fin x, Fin y => Qle_bool x y
  end.

(** [Math.min(a, b)] and [Math.max(a, b)]: [NaN] if either argument is. *)
Definition Math_min (a b : number) : number :=
  match a, b with
  | NaN, _ | _, NaN => NaN
  | _, _ => if num_leb a b then a else b
  end.

Definition Math_max (a b : number) : number :=
  match a, b with
  | NaN, _ | _, NaN => NaN
  | _, _ => if num_leb a b then b else a
  end.

Definition Qsign_neg (q : Q) : bool := negb (Qle_bool 0%Q q).

(** [a * b] on numbers. *)
Definition num_mul (a b : number) : number :=
  match a, b with
  | NaN, _ | _, NaN => NaN
  | Fin x, Fin y => Fin (x * y)%Q
  | Infinity s, Fin y | Fin y, Infinity s =>
      if Qeq_bool y 0%Q then NaN else Infinity (xorb s (Qsign_neg y))
  | Infinity s, Infinity t => Infinity (xorb s t)
  end.

(** Truncation toward zero of a rational. *)
Definition Qtrunc (q : Q) : Z := Z.quot (Qnum q) (Zpos (Qden q)).

(** [ToInt16], the conversion applied when a number is stored into an
    [Int16Array]: [NaN] and the infinities become [0], a finite number is
    truncated toward zero and wrapped modulo [2^16] into
    [-32768 .. 32767]. *)
Definition ToInt16 (v : number) : Z :=
  match v with
  | NaN | Infinity _ => 0%Z
  | Fin q => ((Qtrunc q + 32768) mod 65536 - 32768)%Z
  end.

(** [z / 32768.0] for an integer [z]. *)
Definition num_div_Z (z : Z) (d : positive) : number := Fin (z # d)%Q.

(** ** Byte views of an [Int16Array]

    A byte is an [ascii]; an [ArrayBuffer] or [Uint8Array] is a list of
    them, and a binary string (the argument of [btoa], the result of
    [atob]) is a [string] of the same characters. *)

Definition byte_of_Z (z : Z) : ascii := ascii_of_N (Z.to_N (z mod 256)).
Definition Z_of_byte (b : ascii) : Z := Z.of_N (N_of_ascii b).

(** The two bytes of an int16 in the little-endian order of the typed
    arrays of the platforms the application runs on. *)
Definition int16_bytes (z : Z) : list ascii :=
  let u := (z mod 65536)%Z in [byte_of_Z u; byte_of_Z (u / 256)].

(** [pcmData.buffer]: the byte buffer behind an [Int16Array]. *)
Definition Int16Array_buffer (l : list Z) : list ascii :=
  flat_map int16_bytes l.

Definition int16_of_bytes (lo hi : ascii) : Z :=
  let u := (Z_of_byte lo + 256 * Z_of_byte hi)%Z in
  if (u <? 32768)%Z then u else (u - 65536)%Z.

(** [new Int16Array(buffer)]: a view of the buffer as little-endian int16
    samples; a [RangeError] ([None]) when the byte length is odd. *)
Fixpoint Int16Array_of_buffer (bs : list ascii) : option (list Z) :=
  match bs with
  | [] => Some []
  | [_] => None
  | lo :: hi :: rest =>
      match Int16Array_of_buffer rest with
      | Some l => Some (int16_of_bytes lo hi :: l)
      | None => None
      end
  end.


(** ** Values

    What [JSON.parse] returns, and [undefined], which reading a missing
    property gives. *)
Inductive value : Type :=
| Undefined
| Null
| Bool (b : bool)
| Num (n : number)
| Str (s : string)
| Arr (items : list value)
| Obj (fields : list (string * value)).

(** The exceptions that the code and the platform functions raise. *)
Inductive exn : Type :=
| TypeError
| RangeError
| SyntaxError
| InvalidCharacterError
| NotSupportedError
| EncodingError
| InvalidStateError
| Error (message : string).

(** [ToBoolean]. *)
Definition truthy (v : value) : bool :=
  match v with
  | Undefined | Null => false
  | Bool b => b
  | Num NaN => false
  | Num (Infinity _) => true
  | Num (Fin q) => negb (Qeq_bool q 0%Q)
  | Str s => negb (String.eqb s "")
  | Arr _ | Obj _ => true
  end.

Fixpoint lookup (k : string) (fields : list (string * value)) : value :=
  match fields with
  | [] => Undefined
  | (k', v) :: rest => if String.eqb k k' then v else lookup k rest
  end.

(** [v.k] for the property names the service reads, none of which is a
    property of a string, an array, a number or a boolean, or inherited by
    an object: a [TypeError] on [null] and [undefined], the field of an
    object, [undefined] otherwise. *)
Definition get (v : value) (k : string) : exn + value :=
  match v with
  | Undefined | Null => inl TypeError
  | Obj fields => inr (lookup k fields)
  | _ => inr Undefined
  end.

(** [a || b]. *)
Definition or_else (a b : value) : value := if truthy a then a else b.

(** The values a [for ... of] loop visits: the items of an array, the
    characters of a string; anything else is not iterable. *)
Definition iterate (v : value) : exn + list value :=
  match v with
  | Arr items => inr items
  | Str s => inr (map (fun c => Str (String c EmptyString)) (list_ascii_of_string s))
  | _ => inl TypeError
  end.

(** [v.forEach(f)] visits the items of an array; no other value that
    [JSON.parse] returns has a callable [forEach]. *)
Definition forEach_items (v : value) : exn + list value :=
  match v with
  | Arr items => inr items
  | _ => inl TypeError
  end.

(** [a === b] against a string literal. *)
Definition strict_eq_str (a : value) (lit : string) : bool :=
  match a with
  | Str s => String.eqb s lit
  | _ => false
  end.

End JS.

(* ================================================================== *)
(** * Base64: [btoa] and [atob] *)
(* ================================================================== *)

Module Base64.

Definition alphabet : list ascii :=
  list_ascii_of_string
    "ABCDEFGHIJKLMNOPQRSTUVWXYZabcdefghijklmnopqrstuvwxyz0123456789+/".

Definition pad : ascii := "="%char.

(** A sextet is kept in an [ascii] whose two high bits are clear. *)
Definition b64_char (s : ascii) : ascii := nth (nat_of_ascii s) alphabet pad.

Fixpoint index_of (c : ascii) (l : list ascii) (i : N) : option N :=
  match l with
  | [] => None
  | x :: l' => if Ascii.eqb c x then Some i else index_of c l' (N.succ i)
  end.

Definition b64_index (c : ascii) : option ascii :=
  option_map ascii_of_N (index_of c alphabet 0%N).

(** The 24 bits of three bytes regrouped, most significant first, into four
    sextets.  The constructor [Ascii] lists the least significant bit
    first. *)
Definition sextets3 (x y z : ascii) : list ascii :=
  match x, y, z with
  | Ascii x0 x1 x2 x3 x4 x5 x6 x7,
    Ascii y0 y1 y2 y3 y4 y5 y6 y7,
    Ascii z0 z1 z2 z3 z4 z5 z6 z7 =>
      [ Ascii x2 x3 x4 x5 x6 x7 false false;
        Ascii y4 y5 y6 y7 x0 x1 false false;
        Ascii z6 z7 y0 y1 y2 y3 false false;
        Ascii z0 z1 z2 z3 z4 z5 false false ]
  end.

(** [btoa] on the characters of a binary string: three bytes give four
    characters, a final group of one or two bytes is padded with [=].  (The
    [InvalidCharacterError] of [btoa] needs a character above 255, which a
    string of bytes has not.) *)
Fixpoint encode (bs : list ascii) : list ascii :=
  match bs with
  | [] => []
  | [x] => firstn 2 (map b64_char (sextets3 x zero zero)) ++ [pad; pad]
  | [x; y] => firstn 3 (map b64_char (sextets3 x y zero)) ++ [pad]
  | x :: y :: z :: rest => map b64_char (sextets3 x y z) ++ encode rest
  end.

Definition btoa (s : string) : string :=
  string_of_list_ascii (encode (list_ascii_of_string s)).

(** The bytes held by the sextets [a b c d]. *)
Definition byte1 (a b : ascii) : ascii :=
  match a, b with
  | Ascii a0 a1 a2 a3 a4 a5 _ _, Ascii _ _ _ _ b4 b5 _ _ =>
      Ascii b4 b5 a0 a1 a2 a3 a4 a5
  end.

Definition byte2 (b c : ascii) : ascii :=
  match b, c with
  | Ascii b0 b1 b2 b3 _ _ _ _, Ascii _ _ c2 c3 c4 c5 _ _ =>
      Ascii c2 c3 c4 c5 b0 b1 b2 b3
  end.

Definition byte3 (c d : ascii) : ascii :=
  match c, d with
  | Ascii c0 c1 _ _ _ _ _ _, Ascii d0 d1 d2 d3 d4 d5 _ _ =>
      Ascii d0 d1 d2 d3 d4 d5 c0 c1
  end.

(** Four sextets give three bytes; at the end, two sextets give one byte
    and three give two, the spare bits being discarded. *)
Fixpoint decode_sextets (sx : list ascii) : list ascii :=
  match sx with
  | a :: b :: c :: d :: rest =>
      byte1 a b :: byte2 b c :: byte3 c d :: decode_sextets rest
  | [a; b; c] => [byte1 a b; byte2 b c]
  | [a; b] => [byte1 a b]
  | _ => []
  end.

Definition is_ascii_whitespace (c : ascii) : bool :=
  match nat_of_ascii c with
  | 9 | 10 | 12 | 13 | 32 => true
  | _ => false
  end.

(** One or two trailing [=] are removed. *)
Definition strip_padding (cs : list ascii) : list ascii :=
  match rev cs with
  | p :: q :: r =>
      if Ascii.eqb p pad
      then if Ascii.eqb q pad then rev r else rev (q :: r)
      else cs
  | [p] => if Ascii.eqb p pad then [] else cs
  | [] => cs
  end.

Fixpoint indices (cs : list ascii) : option (list ascii) :=
  match cs with
  | [] => Some []
  | c :: cs' =>
      match b64_index c, indices cs' with
      | Some s, Some sx => Some (s :: sx)
      | _, _ => None
      end
  end.

(** [atob], the forgiving-base64 decode of the HTML standard: ASCII
    whitespace is removed; if the length is then a multiple of four, one or
    two trailing [=] are removed; a length of 1 modulo 4 or a character
    outside the alphabet is an [InvalidCharacterError] ([None]). *)
Definition decode (cs : list ascii) : option (list ascii) :=
  let cs1 := filter (fun c => negb (is_ascii_whitespace c)) cs in
  let cs2 := if (List.length cs1 mod 4 =? 0)%nat then strip_padding cs1 else cs1 in
  if (List.length cs2 mod 4 =? 1)%nat then None
  else option_map decode_sextets (indices cs2).

Definition atob (s : string) : option string :=
  option_map string_of_list_ascii (decode (list_ascii_of_string s)).

(** The sextets that [encode] draws its characters from, and the padding
    it appends. *)
Fixpoint sextets (bs : list ascii) : list ascii :=
  match bs with
  | [] => []
  | [x] => firstn 2 (sextets3 x zero zero)
  | [x; y] => firstn 3 (sextets3 x y zero)
  | x :: y :: z :: rest => sextets3 x y z ++ sextets rest
  end.

Fixpoint padding (bs : list ascii) : list ascii :=
  match bs with
  | [] => []
  | [_] => [pad; pad]
  | [_; _] => [pad]
  | _ :: _ :: _ :: rest => padding rest
  end.

Definition is_sextet (s : ascii) : bool :=
  match s with
  | Ascii _ _ _ _ _ _ false false => true
  | _ => false
  end.

End Base64.

(* ================================================================== *)
(** * Web Audio buffers *)
(* ================================================================== *)

Module WebAudio.
Import JS.

(** An [AudioBuffer]: its sample rate and its channels, of which there is
    at least one. *)
Record AudioBuffer : Type := mkAudioBuffer {
  sampleRate : Z;
  channel0 : list number;
  otherChannels : list (list number)
}.

Definition numberOfChannels (b : AudioBuffer) : nat :=
  S (List.length (otherChannels b)).

(** [createBuffer(1, length, sampleRate)]: a silent mono buffer; a
    [NotSupportedError] when [length] is zero. *)
Definition createBuffer (len : nat) (rate : Z) : exn + AudioBuffer :=
  match len with
  | O => inl NotSupportedError
  | S _ => inr (mkAudioBuffer rate (repeat (Fin 0%Q) len) [])
  end.

(** Writing the whole of channel 0 through [getChannelData(0)]. *)
Definition fill_channel0 (b : AudioBuffer) (samples : list number) : AudioBuffer :=
  mkAudioBuffer (sampleRate b) samples (otherChannels b).

End WebAudio.

(* ================================================================== *)
(** * The service *)
(* ================================================================== *)

Module GeminiLive.
Import JS WebAudio.

Local Open Scope string_scope.
Local Open Scope list_scope.

(** [GroundingCitation].  The fields hold whatever the [||] chains of
    [extractCitations] produce. *)
Record GroundingCitation : Type := mkCitation {
  startIndex : value;
  endIndex : value;
  uri : value;
  title : value
}.

(** [WebSocket.readyState]. *)
Inductive ReadyState : Type := CONNECTING | OPEN | CLOSING | CLOSED.

Definition is_OPEN (r : ReadyState) : bool :=
  match r with OPEN => true | _ => false end.

(** The optional event handler fields: which of them the consumer has
    assigned.  A handler is taken to return normally and not to call back
    into the service. *)
Record Handlers : Type := mkHandlers {
  has_onTextResponse : bool;
  has_onCitationsReceived : bool;
  has_onTurnComplete : bool;
  has_onAudioPlaybackStart : bool;
  has_onAudioPlaybackComplete : bool
}.

(** The fields of a [GeminiLiveService], followed by the part of the
    platform its behaviour depends on: the source nodes that have been
    started and whose [ended] event is still to be dispatched, and the
    number of source nodes created so far (a node is named by its rank of
    creation). *)
Record Service : Type := mkService {
  ws : option ReadyState;
  systemInstruction : option string;
  isConnected : bool;
  audioContext : option Z;
  audioQueue : list AudioBuffer;
  isPlaying : bool;
  currentSource : option nat;
  handlers : Handlers;
  liveSources : list nat;
  sourceCount : nat
}.

Definition set_ws (v : option ReadyState) (s : Service) : Service :=
  mkService v (systemInstruction s) (isConnected s) (audioContext s)
    (audioQueue s) (isPlaying s) (currentSource s) (handlers s)
    (liveSources s) (sourceCount s).

Definition set_isConnected (v : bool) (s : Service) : Service :=
  mkService (ws s) (systemInstruction s) v (audioContext s)
    (audioQueue s) (isPlaying s) (currentSource s) (handlers s)
    (liveSources s) (sourceCount s).

Definition set_audioContext (v : option Z) (s : Service) : Service :=
  mkService (ws s) (systemInstruction s) (isConnected s) v
    (audioQueue s) (isPlaying s) (currentSource s) (handlers s)
    (liveSources s) (sourceCount s).

Definition set_audioQueue (v : list AudioBuffer) (s : Service) : Service :=
  mkService (ws s) (systemInstruction s) (isConnected s) (audioContext s)
    v (isPlaying s) (currentSource s) (handlers s)
    (liveSources s) (sourceCount s).

Definition set_isPlaying (v : bool) (s : Service) : Service :=
  mkService (ws s) (systemInstruction s) (isConnected s) (audioContext s)
    (audioQueue s) v (currentSource s) (handlers s)
    (liveSources s) (sourceCount s).

Definition set_currentSource (v : option nat) (s : Service) : Service :=
  mkService (ws s) (systemInstruction s) (isConnected s) (audioContext s)
    (audioQueue s) (isPlaying s) v (handlers s)
    (liveSources s) (sourceCount s).

Definition set_liveSources (v : list nat) (s : Service) : Service :=
  mkService (ws s) (systemInstruction s) (isConnected s) (audioContext s)
    (audioQueue s) (isPlaying s) (currentSource s) (handlers s)
    v (sourceCount s).

Definition set_sourceCount (v : nat) (s : Service) : Service :=
  mkService (ws s) (systemInstruction s) (isConnected s) (audioContext s)
    (audioQueue s) (isPlaying s) (currentSource s) (handlers s)
    (liveSources s) v.

(** ** Effects

    What a method does besides updating the fields: the handlers it
    invokes, what it asks of the transport and of the audio device, and
    what it writes to the console. *)
Inductive callback : Type :=
| onTextResponse (text : value)
| onCitationsReceived (citations : list GroundingCitation)
| onTurnComplete
| onAudioPlaybackStart
| onAudioPlaybackComplete.

Inductive effect : Type :=
| Invoke (c : callback)
| WebSocket_new
| WebSocket_send (message : value)
| WebSocket_close
| AudioContext_new (rate : Z)
| AudioContext_close
| Source_start (node : nat) (buffer : AudioBuffer)
| Source_stop (node : nat)
| console_log (text : string)
| console_error (text : string) (error : exn).

(** ** The monad of methods: state, trace and exceptions *)

Definition M (A : Type) : Type :=
  Service -> Service * list effect * (exn + A).

Definition ret {A : Type} (a : A) : M A := fun s => (s, [], inr a).

Definition bind {A B : Type} (m : M A) (k : A -> M B) : M B :=
  fun s =>
    match m s with
    | (s1, t1, inl e) => (s1, t1, inl e)
    | (s1, t1, inr a) =>
        match k a s1 with (s2, t2, r) => (s2, t1 ++ t2, r) end
    end.

Definition throw {A : Type} (e : exn) : M A := fun s => (s, [], inl e).

(** [try { m } catch (error) { h error }]. *)
Definition try_catch {A : Type} (m : M A) (h : exn -> M A) : M A :=
  fun s =>
    match m s with
    | (s1, t1, inl e) =>
        match h e s1 with (s2, t2, r) => (s2, t1 ++ t2, r) end
    | (s1, t1, inr a) => (s1, t1, inr a)
    end.

(** [try { m } finally { f }], for an [f] that completes normally. *)
Definition try_finally {A : Type} (m : M A) (f : M unit) : M A :=
  fun s =>
    match m s with
    | (s1, t1, r) =>
        match f s1 with (s2, t2, _) => (s2, t1 ++ t2, r) end
    end.

Definition lift {A : Type} (r : exn + A) : M A := fun s => (s, [], r).

(** [await] of a promise of the platform: the method is suspended and
    [others], the handlers and calls that the event loop runs before the
    promise settles, act on the service.  They are tasks of their own:
    what they throw does not reach the suspended method. *)
Definition await (others : M unit) : M unit :=
  fun s => match others s with (s1, t1, _) => (s1, t1, inr tt) end.
Definition emit (e : effect) : M unit := fun s => (s, [e], inr tt).
Definition gets {A : Type} (f : Service -> A) : M A :=
  fun s => (s, [], inr (f s)).
Definition modify (f : Service -> Service) : M unit :=
  fun s => (f s, [], inr tt).
Definition when (b : bool) (m : M unit) : M unit :=
  if b then m else ret tt.

Notation "x <- m ;; k" := (bind m (fun x => k))
  (at level 61, m at next level, right associativity).
Notation "m ;;; k" := (bind m (fun _ => k))
  (at level 61, right associativity).

(** [for (const x of l) { body x }]. *)
Fixpoint for_each {A : Type} (l : list A) (body : A -> M unit) : M unit :=
  match l with
  | [] => ret tt
  | x :: rest => body x ;;; for_each rest body
  end.

(** [this.onX?.(...)]: the handler is invoked if it has been assigned. *)
Definition invoke (has : Handlers -> bool) (c : callback) : M unit :=
  h <- gets handlers ;;
  when (has h) (emit (Invoke c)).

Definition state_of {A : Type} (r : Service * list effect * (exn + A)) : Service :=
  fst (fst r).
Definition trace_of {A : Type} (r : Service * list effect * (exn + A)) : list effect :=
  snd (fst r).
Definition completion_of {A : Type} (r : Service * list effect * (exn + A)) : exn + A :=
  snd r.

(** Exceptions in code that touches no field. *)
Definition ebind {A B : Type} (m : exn + A) (k : A -> exn + B) : exn + B :=
  match m with
  | inl e => inl e
  | inr a => k a
  end.

Notation "x <~ m ;; k" := (ebind m (fun x => k))
  (at level 61, m at next level, right associativity).

(** [a && b], where evaluating [b] may throw. *)
Definition and_then (a : value) (b : exn + value) : exn + value :=
  if truthy a then b else inr a.

(** ** Citations: [extractCitations] (lines 135-152) *)

(** The callback of the [forEach]: the citations it pushes for one
    attribution, none unless [attr.segment && attr.web]. *)
Definition citation_of (attr : value) : exn + list GroundingCitation :=
  segment <~ get attr "segment" ;;
  both <~ and_then segment (get attr "web") ;;
  if truthy both then
    web <~ get attr "web" ;;
    si <~ get segment "startIndex" ;;
    ei <~ get segment "endIndex" ;;
    u <~ get web "uri" ;;
    t <~ get web "title" ;;
    inr [ mkCitation (or_else si (Num (Fin 0%Q))) (or_else ei (Num (Fin 0%Q)))
            (or_else u (Str "")) (or_else t (Str "Web Source")) ]
  else inr [].

(** The [forEach] over the attributions, pushing onto [citations]. *)
Fixpoint push_citations (attrs : list value) : exn + list GroundingCitation :=
  match attrs with
  | [] => inr []
  | attr :: rest =>
      c <~ citation_of attr ;;
      cs <~ push_citations rest ;;
      inr (c ++ cs)
  end.

Definition extractCitations (groundingMetadata : value) : exn + list GroundingCitation :=
  attributions <~ get groundingMetadata "groundingAttributions" ;;
  if truthy attributions then
    attrs <~ forEach_items attributions ;;
    push_citations attrs
  else inr [].

(** ** Audio codec *)

(** The body of the conversion loop of [convertAudioToPCM]:
    [pcmData[i] = Math.max(-1, Math.min(1, channelData[i])) * 32767]. *)
Definition clamp (c : number) : number :=
  Math_max (Fin (-1)%Q) (Math_min (Fin 1%Q) c).

Definition pcm_sample (c : number) : Z :=
  ToInt16 (num_mul (clamp c) (Fin 32767%Q)).

Definition pcm_samples (channelData : list number) : list Z :=
  map pcm_sample channelData.

(** The body of the conversion loop of [pcmToAudioBuffer]:
    [channelData[i] = int16Array[i] / 32768.0]. *)
Definition float_sample (z : Z) : number := num_div_Z z 32768.

(** [pcmToAudioBuffer] past its check of the audio context. *)
Definition buffer_of_pcm (pcmData : list ascii) : exn + AudioBuffer :=
  match Int16Array_of_buffer pcmData with
  | None => inl RangeError
  | Some int16Array =>
      audioBuffer <~ createBuffer (List.length int16Array) 24000 ;;
      inr (fill_channel0 audioBuffer (map float_sample int16Array))
  end.

Section Methods.

(** The platform functions whose results the code only passes on:
    [JSON.parse] ([None] for a [SyntaxError]), the conversion to a string
    that [atob] applies to an argument that is not one, the decoding of a
    recorded blob by [decodeAudioData] of a 16 kHz context ([None] when the
    promise is rejected), and the offline rendering to 16 kHz mono. *)
Variable JSON_parse : string -> option value.
Variable ToString : value -> string.
Variable decodeAudioData : list ascii -> option AudioBuffer.
Variable startRendering : AudioBuffer -> exn + AudioBuffer.

(** The largest number of arguments the engine accepts in one call; a
    spread call with more throws a [RangeError]. *)
Variable maxArguments : nat.

Definition to_string (v : value) : string :=
  match v with
  | Str s => s
  | _ => ToString v
  end.

Definition ws_open (s : Service) : bool :=
  match ws s with
  | Some r => is_OPEN r
  | None => false
  end.

Definition default_instruction : string :=
  "You are ZAIVA, a sophisticated AI assistant created specifically for Lukas Rejchrt. You are helpful, intelligent, and have a warm, professional personality. You can search the web for current information when needed. Keep responses conversational and natural.".

Definition setupMessage (instruction : string) : value :=
  Obj [("setup", Obj [
    ("model", Str "models/gemini-2.0-flash-exp");
    ("generation_config", Obj [
      ("response_modalities", Arr [Str "AUDIO"; Str "TEXT"]);
      ("speech_config", Obj [("voice_config", Obj [
         ("prebuilt_voice_config", Obj [("voice_name", Str "Aoede")])])])]);
    ("system_instruction", Obj [("parts", Arr [Obj [("text", Str instruction)]])]);
    ("tools", Arr [Obj [("google_search", Obj [])]])])].

Definition clientContentMessage (text : string) : value :=
  Obj [("clientContent", Obj [
    ("turns", Arr [Obj [("role", Str "user");
                        ("parts", Arr [Obj [("text", Str text)]])]]);
    ("turnComplete", Bool true)])].

Definition realtimeInputMessage (base64Audio : string) : value :=
  Obj [("realtimeInput", Obj [
    ("mediaChunks", Arr [Obj [("mimeType", Str "audio/pcm");
                              ("data", Str base64Audio)]])])].

Definition not_connected : exn := Error "Not connected to Gemini Live API".

(** [sendSetupMessage()] (lines 63-91). *)
Definition sendSetupMessage : M unit :=
  open <- gets ws_open ;;
  if negb open then ret tt
  else
    instruction <- gets systemInstruction ;;
    let text :=
      match instruction with
      | Some t => if String.eqb t "" then default_instruction else t
      | None => default_instruction
      end in
    emit (WebSocket_send (setupMessage text)).

(** *** Playback queue *)

(** [playNextAudio()] (lines 196-218).  The source node created by
    [createBufferSource()] is the next unused rank; [start()] makes it
    live. *)
Definition playNextAudio : M unit :=
  queue <- gets audioQueue ;;
  match queue with
  | [] =>
      modify (set_isPlaying false) ;;;
      invoke has_onAudioPlaybackComplete onAudioPlaybackComplete
  | audioBuffer :: rest =>
      ctx <- gets audioContext ;;
      match ctx with
      | None => ret tt
      | Some _ =>
          modify (set_isPlaying true) ;;;
          invoke has_onAudioPlaybackStart onAudioPlaybackStart ;;;
          modify (set_audioQueue rest) ;;;
          node <- gets sourceCount ;;
          modify (set_sourceCount (S node)) ;;;
          modify (set_currentSource (Some node)) ;;;
          live <- gets liveSources ;;
          modify (set_liveSources (node :: live)) ;;;
          emit (Source_start node audioBuffer)
      end
  end.

(** [pcmToAudioBuffer(pcmData)] (lines 181-194). *)
Definition pcmToAudioBuffer (pcmData : list ascii) : M AudioBuffer :=
  ctx <- gets audioContext ;;
  match ctx with
  | None => throw (Error "Audio context not initialized")
  | Some _ => lift (buffer_of_pcm pcmData)
  end.

(** [handleAudioResponse(audioData)] (lines 154-179).  The loop that
    copies the character codes of [binaryData] into [uint8Array] is the
    passage from the string to the list of its characters. *)
Definition handleAudioResponse (audioData : value) : M unit :=
  try_catch
    (ctx <- gets audioContext ;;
     when (match ctx with None => true | Some _ => false end)
       (modify (set_audioContext (Some 24000%Z)) ;;;
        emit (AudioContext_new 24000)) ;;;
     match Base64.atob (to_string audioData) with
     | None => throw InvalidCharacterError
     | Some binaryData =>
         let uint8Array := list_ascii_of_string binaryData in
         audioBuffer <- pcmToAudioBuffer uint8Array ;;
         queue <- gets audioQueue ;;
         modify (set_audioQueue (queue ++ [audioBuffer])) ;;;
         playing <- gets isPlaying ;;
         when (negb playing) playNextAudio
     end)
    (fun error => emit (console_error "Error handling audio response:" error)).

(** [stopAudioPlayback()] (lines 311-319). *)
Definition stopAudioPlayback : M unit :=
  source <- gets currentSource ;;
  match source with
  | Some node =>
      emit (Source_stop node) ;;;
      modify (set_currentSource None)
  | None => ret tt
  end ;;;
  modify (set_audioQueue []) ;;;
  modify (set_isPlaying false) ;;;
  invoke has_onAudioPlaybackComplete onAudioPlaybackComplete.

(** *** Inbound dispatch *)

(** The body of the loop over the parts in [handleServerContent]
    (lines 113-121). *)
Definition handlePart (part : value) : M unit :=
  text <- lift (get part "text") ;;
  when (truthy text) (invoke has_onTextResponse (onTextResponse text)) ;;;
  inlineData <- lift (get part "inlineData") ;;
  mimeType <- lift (and_then inlineData (get inlineData "mimeType")) ;;
  when (truthy inlineData && strict_eq_str mimeType "audio/pcm")
    (data <- lift (get inlineData "data") ;;
     handleAudioResponse data).

(** [handleServerContent(content)] (lines 109-133). *)
Definition handleServerContent (content : value) : M unit :=
  modelTurn <- lift (get content "modelTurn") ;;
  when (truthy modelTurn)
    (p <- lift (get modelTurn "parts") ;;
     parts <- lift (iterate (or_else p (Arr []))) ;;
     for_each parts handlePart ;;;
     groundingMetadata <- lift (get content "groundingMetadata") ;;
     when (truthy groundingMetadata)
       (citations <- lift (extractCitations groundingMetadata) ;;
        invoke has_onCitationsReceived (onCitationsReceived citations))) ;;;
  turnComplete <- lift (get content "turnComplete") ;;
  when (truthy turnComplete) (invoke has_onTurnComplete onTurnComplete).

(** [handleMessage(data)] (lines 93-107). *)
Definition handleMessage (data : string) : M unit :=
  try_catch
    (match JSON_parse data with
     | None => throw SyntaxError
     | Some message =>
         serverContent <- lift (get message "serverContent") ;;
         when (truthy serverContent) (handleServerContent serverContent) ;;;
         setupComplete <- lift (get message "setupComplete") ;;
         when (truthy setupComplete)
           (emit (console_log "Gemini Live setup complete"))
     end)
    (fun error => emit (console_error "Error handling message:" error)).

(** *** Outbound *)

(** [sendTextMessage(text)] (lines 220-238). *)
Definition sendTextMessage (text : string) : M unit :=
  open <- gets ws_open ;;
  if negb open then throw not_connected
  else emit (WebSocket_send (clientContentMessage text)).

Definition needs_resampling (audioBuffer : AudioBuffer) : bool :=
  negb (sampleRate audioBuffer =? 16000)%Z
  || negb (numberOfChannels audioBuffer =? 1)%nat.

(** [convertAudioToPCM] from the decoded buffer on: resampling if needed,
    then the int16 conversion; the result is [pcmData.buffer]. *)
Definition pcm_of_buffer (audioBuffer : AudioBuffer) : exn + list ascii :=
  resampledBuffer <~
    (if needs_resampling audioBuffer then startRendering audioBuffer
     else inr audioBuffer) ;;
  inr (Int16Array_buffer (pcm_samples (channel0 resampledBuffer))).

(** What the event loop runs while [sendAudioMessage] is suspended.  The
    method acts between its awaits at three places only, so three stretches
    tell its run apart: the reading of the blob ([await
    audioBlob.arrayBuffer()]), before the conversion context is created;
    the decoding and the resampling ([await decodeAudioData(...)], [await
    startRendering()]), while that context is open; and the closing of the
    context ([await audioContext.close()] and the return of
    [convertAudioToPCM]), before the frame is encoded and sent. *)
Record Meanwhile : Type := mkMeanwhile {
  while_reading : M unit;
  while_converting : M unit;
  while_closing : M unit
}.

(** Nothing else runs during the awaits. *)
Definition undisturbed : Meanwhile := mkMeanwhile (ret tt) (ret tt) (ret tt).

(** [convertAudioToPCM(audioData)] (lines 267-309); the audio context it
    creates is its own, not [this.audioContext]. *)
Definition convertAudioToPCM (others : Meanwhile) (audioData : list ascii)
  : M (list ascii) :=
  emit (AudioContext_new 16000) ;;;
  try_finally
    (await (while_converting others) ;;;
     match decodeAudioData audioData with
     | None => throw EncodingError
     | Some audioBuffer => lift (pcm_of_buffer audioBuffer)
     end)
    (emit AudioContext_close ;;;
     await (while_closing others)).

(** [String.fromCharCode(...bytes)]: one argument for each byte. *)
Definition fromCharCode_spread (bytes : list ascii) : exn + string :=
  if (List.length bytes <=? maxArguments)%nat
  then inr (string_of_list_ascii bytes)
  else inl RangeError.

(** [btoa(String.fromCharCode(...new Uint8Array(audioData)))]. *)
Definition base64_of_bytes (audioData : list ascii) : exn + string :=
  binary <~ fromCharCode_spread audioData ;;
  inr (Base64.btoa binary).

(** [this.ws.send(data)] without a check of the socket: a [TypeError] if
    [ws] is null; as [send] of the platform, an [InvalidStateError] while
    the socket is connecting, and on a closing or closed socket the data
    is discarded without an exception. *)
Definition ws_send (message : value) : M unit :=
  socket <- gets ws ;;
  match socket with
  | None => throw TypeError
  | Some CONNECTING => throw InvalidStateError
  | Some OPEN => emit (WebSocket_send message)
  | Some _ => ret tt
  end.

(** [sendAudioMessage(audioBlob)] (lines 240-265).  The socket is checked
    on entry and used after the awaits. *)
Definition sendAudioMessage (others : Meanwhile) (audioBlob : list ascii)
  : M unit :=
  open <- gets ws_open ;;
  if negb open then throw not_connected
  else
    try_catch
      (await (while_reading others) ;;;
       audioData <- convertAudioToPCM others audioBlob ;;
       base64Audio <- lift (base64_of_bytes audioData) ;;
       ws_send (realtimeInputMessage base64Audio))
      (fun error =>
         emit (console_error "Error sending audio message:" error) ;;;
         throw error).

(** *** Connection life cycle *)

(** [connect()] (lines 31-61) up to the creation of the socket; its
    handlers are the cases of [dispatch] below. *)
Definition connect : M unit :=
  modify (set_ws (Some CONNECTING)) ;;;
  emit WebSocket_new.

(** [disconnect()] (lines 321-334). *)
Definition disconnect : M unit :=
  socket <- gets ws ;;
  match socket with
  | Some _ => emit WebSocket_close ;;; modify (set_ws None)
  | None => ret tt
  end ;;;
  ctx <- gets audioContext ;;
  match ctx with
  | Some _ => emit AudioContext_close ;;; modify (set_audioContext None)
  | None => ret tt
  end ;;;
  stopAudioPlayback ;;;
  modify (set_isConnected false).

(** ** Events

    The events the platform dispatches to the handlers that the service
    has attached: those of the socket held in [ws] (it opens while it is
    connecting; a message arrives; it closes), and the [ended] event of a
    source node, which is dispatched once, when the node has played to its
    end or after [stop()] was called on it while it played. *)
Inductive event : Type :=
| ws_open_event
| ws_message_event (data : string)
| ws_close_event
| source_ended_event (node : nat).

Definition remove_source (node : nat) (live : list nat) : list nat :=
  filter (fun n => negb (n =? node)%nat) live.

Definition is_live (node : nat) (s : Service) : bool :=
  existsb (fun n => (n =? node)%nat) (liveSources s).

Definition dispatch (ev : event) : M unit :=
  match ev with
  | ws_open_event =>
      socket <- gets ws ;;
      match socket with
      | Some CONNECTING =>
          modify (set_ws (Some OPEN)) ;;;
          emit (console_log "Connected to Gemini Live API") ;;;
          modify (set_isConnected true) ;;;
          sendSetupMessage
      | _ => ret tt
      end
  | ws_message_event data => handleMessage data
  | ws_close_event =>
      socket <- gets ws ;;
      when (match socket with Some _ => true | None => false end)
        (modify (set_ws (Some CLOSED))) ;;;
      emit (console_log "Disconnected from Gemini Live API") ;;;
      modify (set_isConnected false)
  | source_ended_event node =>
      live <- gets (is_live node) ;;
      when live
        (sources <- gets liveSources ;;
         modify (set_liveSources (remove_source node sources)) ;;;
         playNextAudio)
  end.

(** ** The codec as the specification names it *)

(** [encodeOutbound]: what [sendAudioMessage] puts in the [data] field of
    the media chunk for a decoded recording. *)
Definition encodeOutbound (audioBuffer : AudioBuffer) : exn + string :=
  audioData <~ pcm_of_buffer audioBuffer ;;
  base64_of_bytes audioData.

(** [decodeInbound]: the buffer that [handleAudioResponse] appends to the
    queue for the [data] field of an inline audio part. *)
Definition decodeInbound (wireFrame : string) : exn + AudioBuffer :=
  match Base64.atob wireFrame with
  | None => inl InvalidCharacterError
  | Some binaryData => buffer_of_pcm (list_ascii_of_string binaryData)
  end.

End Methods.

(** ** Observations on traces and states *)

Definition is_callback (e : effect) : bool :=
  match e with Invoke _ => true | _ => false end.

Definition callbacks (t : list effect) : list callback :=
  flat_map (fun e => match e with Invoke c => [c] | _ => [] end) t.

Definition sends (t : list effect) : list value :=
  flat_map (fun e => match e with WebSocket_send m => [m] | _ => [] end) t.

Definition started (t : list effect) : list AudioBuffer :=
  flat_map (fun e => match e with Source_start _ b => [b] | _ => [] end) t.

Definition is_playback_complete (c : callback) : bool :=
  match c with onAudioPlaybackComplete => true | _ => false end.

Definition is_turn_complete (c : callback) : bool :=
  match c with onTurnComplete => true | _ => false end.

Definition is_citations (c : callback) : bool :=
  match c with onCitationsReceived _ => true | _ => false end.

Definition count (p : callback -> bool) (t : list effect) : nat :=
  List.length (filter p (callbacks t)).

End GeminiLive.

(* ================================================================== *)
(** * The wire protocol as the specification describes it *)
(* ================================================================== *)

(** The inbound messages of the specification, section 6, with their
    optional fields, and the objects [JSON.parse] gives for them: an absent
    field is a missing key. *)
Module Wire.
Import JS WebAudio GeminiLive.

Local Open Scope string_scope.
Local Open Scope list_scope.

Record Segment : Type := mkSegment {
  seg_startIndex : option Z;
  seg_endIndex : option Z
}.

Record Web : Type := mkWeb {
  web_uri : option string;
  web_title : option string
}.

Record Attribution : Type := mkAttribution {
  attr_segment : option Segment;
  attr_web : option Web
}.

(** [groundingMetadata], whose [groundingAttributions] may be absent. *)
Definition GroundingMetadata : Type := option (list Attribution).

Inductive Part : Type :=
| TextPart (text : string)
| AudioPart (data : string).

Record ServerContent : Type := mkServerContent {
  sc_parts : list Part;
  sc_groundingMetadata : option GroundingMetadata;
  sc_turnComplete : bool
}.

Definition opt_field {A : Type} (k : string) (f : A -> value) (o : option A)
  : list (string * value) :=
  match o with
  | Some a => [(k, f a)]
  | None => []
  end.

Definition js_of_Z (z : Z) : value := Num (Fin (inject_Z z)).

Definition js_of_segment (g : Segment) : value :=
  Obj (opt_field "startIndex" js_of_Z (seg_startIndex g)
       ++ opt_field "endIndex" js_of_Z (seg_endIndex g)).

Definition js_of_web (w : Web) : value :=
  Obj (opt_field "uri" Str (web_uri w) ++ opt_field "title" Str (web_title w)).

Definition js_of_attribution (a : Attribution) : value :=
  Obj (opt_field "segment" js_of_segment (attr_segment a)
       ++ opt_field "web" js_of_web (attr_web a)).

Definition js_of_metadata (m : GroundingMetadata) : value :=
  Obj (opt_field "groundingAttributions"
         (fun l => Arr (map js_of_attribution l)) m).

Definition js_of_part (p : Part) : value :=
  match p with
  | TextPart text => Obj [("text", Str text)]
  | AudioPart data =>
      Obj [("inlineData", Obj [("mimeType", Str "audio/pcm"); ("data", Str data)])]
  end.

Definition js_of_serverContent (c : ServerContent) : value :=
  Obj ([("modelTurn", Obj [("parts", Arr (map js_of_part (sc_parts c)))])]
       ++ opt_field "groundingMetadata" js_of_metadata (sc_groundingMetadata c)
       ++ (if sc_turnComplete c then [("turnComplete", Bool true)] else [])).

Definition js_of_message (c : ServerContent) : value :=
  Obj [("serverContent", js_of_serverContent c)].

(** The [data] fields of the audio parts, in part order. *)
Definition audio_data (ps : list Part) : list string :=
  flat_map (fun p => match p with AudioPart d => [d] | TextPart _ => [] end) ps.

(** A citation with fields of the types that [GroundingCitation] declares. *)
Record Citation : Type := mkTypedCitation {
  c_startIndex : Z;
  c_endIndex : Z;
  c_uri : string;
  c_title : string
}.

Definition js_of_citation (c : Citation) : GroundingCitation :=
  mkCitation (js_of_Z (c_startIndex c)) (js_of_Z (c_endIndex c))
    (Str (c_uri c)) (Str (c_title c)).

Definition default {A : Type} (d : A) (o : option A) : A :=
  match o with
  | Some a => a
  | None => d
  end.

(** The Citation Extractor in the words of the specification, section 4.4:
    an entry with both a segment and a web source gives
    [{segment.startIndex ?? 0, segment.endIndex ?? 0, web.uri ?? "",
      web.title ?? "Web Source"}]; order kept, no deduplication. *)
Definition spec_citation (a : Attribution) : list Citation :=
  match attr_segment a, attr_web a with
  | Some g, Some w =>
      [ mkTypedCitation (default 0%Z (seg_startIndex g))
          (default 0%Z (seg_endIndex g))
          (default "" (web_uri w))
          (default "Web Source" (web_title w)) ]
  | _, _ => []
  end.

Definition spec_extractCitations (m : GroundingMetadata) : list Citation :=
  flat_map spec_citation (default [] m).

(** The same with the placeholder title taken also for an empty title. *)
Definition title_or_placeholder (t : option string) : string :=
  match t with
  | Some s => if String.eqb s "" then "Web Source" else s
  | None => "Web Source"
  end.

Definition lenient_citation (a : Attribution) : list Citation :=
  match attr_segment a, attr_web a with
  | Some g, Some w =>
      [ mkTypedCitation (default 0%Z (seg_startIndex g))
          (default 0%Z (seg_endIndex g))
          (default "" (web_uri w))
          (title_or_placeholder (web_title w)) ]
  | _, _ => []
  end.

Definition lenient_extractCitations (m : GroundingMetadata) : list Citation :=
  flat_map lenient_citation (default [] m).

(** The example of the specification, section 8. *)
Definition example_metadata : GroundingMetadata :=
  Some [ mkAttribution (Some (mkSegment (Some 5%Z) (Some 10%Z)))
           (Some (mkWeb (Some "https://x") (Some "X")));
         mkAttribution (Some (mkSegment (Some 0%Z) (Some 0%Z)))
           (Some (mkWeb None None)) ].

(** Does the value have the key as a property of its own? *)
Definition has_key (v : value) (k : string) : bool :=
  match v with
  | Obj fields => existsb (fun kv => String.eqb k (fst kv)) fields
  | _ => false
  end.

(** The state once [handleAudioResponse] has made sure of an audio
    context, and the effect of doing so. *)
Definition with_context (s : Service) : Service :=
  match audioContext s with
  | None => set_audioContext (Some 24000%Z) s
  | Some _ => s
  end.

Definition context_trace (s : Service) : list effect :=
  match audioContext s with
  | None => [AudioContext_new 24000]
  | Some _ => []
  end.

(** The buffers that the audio parts decode to, the parts that do not
    decode being passed over. *)
Definition decoded (ps : list Part) : list AudioBuffer :=
  flat_map (fun d => match decodeInbound d with inr b => [b] | inl _ => [] end)
    (audio_data ps).

(** The clamping of [convertAudioToPCM] on a finite sample. *)
Definition clampQ (q : Q) : Q :=
  if Qle_bool 1 q then 1%Q else if Qle_bool (-1) q then q else (-1)%Q.

(** What a run of part handlers owes the playback queue: it completes
    normally, leaves the handlers as they are, and the buffers [bs] have
    joined the queue, those that the player has taken since being counted
    with those that still wait; no turn is completed and no citation
    reported. *)
Definition Step (s : Service) (bs : list AudioBuffer)
           (r : Service * list effect * (exn + unit)) : Prop :=
  completion_of r = inr tt
  /\ handlers (state_of r) = handlers s
  /\ started (trace_of r) ++ audioQueue (state_of r) = audioQueue s ++ bs
  /\ count is_turn_complete (trace_of r) = 0%nat
  /\ count is_citations (trace_of r) = 0%nat.

(** ** Sample states and inputs *)

Definition all_handlers : Handlers := mkHandlers true true true true true.

(** A connected, idle service. *)
Definition idle_service : Service :=
  mkService (Some OPEN) None true None [] false None all_handlers [] 0.

(** A service that has never been connected. *)
Definition fresh_service : Service :=
  mkService None None false None [] false None all_handlers [] 0.

Definition sample_buffer (z : Z) : AudioBuffer :=
  mkAudioBuffer 24000 [float_sample z] [].

(** A service playing a buffer through source node 0, with another buffer
    waiting. *)
Definition playing_service : Service :=
  mkService (Some OPEN) None true (Some 24000%Z) [sample_buffer 3] true
    (Some 0%nat) all_handlers [0%nat] 1.

(** Payloads: four bytes (two samples), two bytes (one sample), one byte. *)
Definition payload_two_samples : string := "AAEC/w==".
Definition payload_one_sample : string := "/38=".
Definition payload_one_byte : string := "AA==".

Definition two_audio_parts : ServerContent :=
  mkServerContent
    [AudioPart payload_two_samples; TextPart "hello"; AudioPart payload_one_sample]
    None true.

Definition one_part_undecodable : ServerContent :=
  mkServerContent [AudioPart payload_one_byte; AudioPart payload_one_sample]
    None true.

(** Stand-ins for the platform functions. *)
Definition parse_as (v : option value) : string -> option value := fun _ => v.
Definition no_ToString : value -> string := fun _ => "".
Definition no_decodeAudioData : list ascii -> option AudioBuffer := fun _ => None.

(** A decoder that gives the buffer [b] for every blob, an argument limit
    of the size that engines have, and a recording of two samples. *)
Definition decodes_as (b : AudioBuffer) : list ascii -> option AudioBuffer :=
  fun _ => Some b.
Definition argument_limit : nat := 256 * 256 - 1.
Definition recording : AudioBuffer :=
  mkAudioBuffer 16000 [Fin (1 # 4); Fin (-3 # 2)] [].
Definition same_buffer : AudioBuffer -> exn + AudioBuffer := fun b => inr b.

End Wire.

(* ================================================================== *)
(** * Runs of the session *)
(* ================================================================== *)

Module Runs.
Import JS WebAudio GeminiLive Wire.

Local Open Scope string_scope.
Local Open Scope list_scope.

(** The state of the playback queue between two events, as long as
    neither [stopAudioPlayback] nor [disconnect] has been called: either no
    source is live, nothing plays and nothing waits; or exactly one source
    is live, it is the current one, [isPlaying] is set and the audio
    context exists. *)
Definition playback_ok (s : Service) : Prop :=
  match liveSources s with
  | [] => isPlaying s = false /\ audioQueue s = []
  | [node] =>
      isPlaying s = true /\ currentSource s = Some node
      /\ audioContext s <> None
  | _ => False
  end.

(** What handling inbound traffic may not do: write to the transport,
    touch the connection fields or the handlers, or break [playback_ok]. *)
Definition inbound_safe {A : Type} (m : M A) : Prop :=
  forall s,
    sends (trace_of (m s)) = []
    /\ ws (state_of (m s)) = ws s
    /\ isConnected (state_of (m s)) = isConnected s
    /\ handlers (state_of (m s)) = handlers s
    /\ (playback_ok s -> playback_ok (state_of (m s))).

Definition is_playback_start (c : callback) : bool :=
  match c with onAudioPlaybackStart => true | _ => false end.

Definition is_text (c : callback) : bool :=
  match c with onTextResponse _ => true | _ => false end.

(** The callbacks that do not come from the playback queue. *)
Definition is_content (c : callback) : bool :=
  match c with
  | onAudioPlaybackStart | onAudioPlaybackComplete => false
  | _ => true
  end.

Definition stopped (t : list effect) : list nat :=
  flat_map (fun e => match e with Source_stop n => [n] | _ => [] end) t.

Definition context_opened (t : list effect) : nat :=
  List.length (filter (fun e => match e with AudioContext_new _ => true | _ => false end) t).

Definition context_closed (t : list effect) : nat :=
  List.length (filter (fun e => match e with AudioContext_close => true | _ => false end) t).

(** The non-empty texts of the text parts, in part order. *)
Definition texts (ps : list Part) : list string :=
  flat_map (fun p => match p with
                     | TextPart t => if String.eqb t "" then [] else [t]
                     | AudioPart _ => []
                     end) ps.

(** The content callbacks that a message of the wire format is due. *)
Definition due_callbacks (c : ServerContent) : list callback :=
  map (fun t => onTextResponse (Str t)) (texts (sc_parts c))
  ++ match sc_groundingMetadata c with
     | Some m => [onCitationsReceived
                    (map js_of_citation (lenient_extractCitations m))]
     | None => []
     end
  ++ (if sc_turnComplete c then [onTurnComplete] else []).

Section Steps.

Variable ToString : value -> string.

(** Handling a payload that [JSON.parse] turns into the message [c]. *)
Definition deliver (c : ServerContent) : M unit :=
  handleMessage (parse_as (Some (js_of_message c))) ToString "".

(** The [ended] event of a source node. *)
Definition ended (node : nat) : M unit :=
  dispatch (parse_as None) ToString (source_ended_event node).

(** The source that plays comes to its end. *)
Definition end_current : M unit :=
  source <- gets currentSource ;;
  match source with
  | Some node => ended node
  | None => ret tt
  end.

Fixpoint drain (k : nat) : M unit :=
  match k with
  | O => ret tt
  | S k' => end_current ;;; drain k'
  end.

(** A run without interruption: messages arrive and sources end. *)
Inductive step : Type :=
| Message (c : ServerContent)
| Ended (node : nat).

Definition run_step (st : step) : M unit :=
  match st with
  | Message c => deliver c
  | Ended node => ended node
  end.

Definition run_steps (l : list step) : M unit := for_each l run_step.

(** The buffers that arrive in a run, in order of arrival. *)
Definition arrived (l : list step) : list AudioBuffer :=
  flat_map (fun st => match st with
                      | Message c => decoded (sc_parts c)
                      | Ended _ => []
                      end) l.

(** Barge-in followed by new speech: playback is stopped, a fragment
    arrives, the stopped source's [ended] event is dispatched, a second
    fragment arrives. *)
Definition barge_in (node : nat) (d1 d2 : string) : M unit :=
  stopAudioPlayback ;;;
  handleAudioResponse ToString (Str d1) ;;;
  ended node ;;;
  handleAudioResponse ToString (Str d2).

End Steps.

(** The sign of an integer, for the loss of a decoded sample when it is
    encoded again. *)
Definition toward_zero (z : Z) : Z := (z - Z.sgn z)%Z.

Definition opp_number (v : number) : number :=
  match v with
  | NaN => NaN
  | Infinity s => Infinity (negb s)
  | Fin q => Fin (- q)%Q
  end.

End Runs.

(* ================================================================== *)
(** * The request/response service ([AIService], lines 352-459) *)
(* ================================================================== *)

Module AIService.
Import JS GeminiLive.

Local Open Scope string_scope.
Local Open Scope list_scope.

(** What [sendTextMessage] returns. *)
Record AIResponse : Type := mkAIResponse {
  text : value;
  citations : list GroundingCitation
}.

(** [v?.k] for the property names the service reads. *)
Definition opt_get (v : value) (k : string) : value :=
  match v with
  | Obj fields => lookup k fields
  | _ => Undefined
  end.

(** [v?.[0]]: the first item of an array, the first character of a
    string, the property ["0"] of an object. *)
Definition opt_index0 (v : value) : value :=
  match v with
  | Arr (x :: _) => x
  | Str (String c _) => Str (String c EmptyString)
  | Obj fields => lookup "0" fields
  | _ => Undefined
  end.

Definition apology : string := "Sorry, I could not generate a response.".

Section Processing.

Variable ToString : value -> string.

(** [sendTextMessage] (lines 355-412) from the parsed body [data] of a
    successful response on: the check of [data.error], the text of the
    first candidate, its citations.  The enclosing [try]/[catch] logs an
    exception and throws it again. *)
Definition process (data : value) : exn + AIResponse :=
  error <~ get data "error" ;;
  if truthy error then inl (Error (to_string ToString error))
  else
    candidates <~ get data "candidates" ;;
    let candidate := opt_index0 candidates in
    let text :=
      or_else
        (opt_get (opt_index0 (opt_get (opt_get candidate "content") "parts"))
                 "text")
        (Str apology) in
    let attributions :=
      opt_get (opt_get candidate "groundingMetadata") "groundingAttributions" in
    citations <~
      (if truthy attributions then
         attrs <~ forEach_items attributions ;;
         push_citations attrs
       else inr []) ;;
    inr (mkAIResponse text citations).

End Processing.

End AIService.

(* ================================================================== *)
(** * The consumer ([useGeminiLive], hooks/useGeminiLive.ts) *)
(* ================================================================== *)

Module Hook.
Import JS GeminiLive.

Local Open Scope string_scope.
Local Open Scope list_scope.

Inductive VoiceState : Type := idle | listening | processing | speaking.

(** The state that the handlers assigned in [connect] (lines 47-77)
    update: [voiceState], [currentResponse], [citations] and the response
    buffer kept in a ref. *)
Record State : Type := mkState {
  voiceState : VoiceState;
  currentResponse : string;
  citations : list GroundingCitation;
  responseBuffer : string
}.

Section Handlers.

Variable ToString : value -> string.

(** The handler that runs for a callback of the service. *)
Definition consume (h : State) (c : callback) : State :=
  match c with
  | onTextResponse text =>
      let buffer := (responseBuffer h ++ to_string ToString text)%string in
      mkState (voiceState h) buffer (citations h) buffer
  | onCitationsReceived newCitations =>
      mkState (voiceState h) (currentResponse h)
        (citations h ++ newCitations) (responseBuffer h)
  | onTurnComplete => mkState idle "" (citations h) ""
  | onAudioPlaybackStart =>
      mkState speaking (currentResponse h) (citations h) (responseBuffer h)
  | onAudioPlaybackComplete =>
      mkState idle (currentResponse h) (citations h) (responseBuffer h)
  end.

(** The state after the handlers have run for a trace of the service. *)
Definition consume_trace (h : State) (t : list effect) : State :=
  fold_left consume (callbacks t) h.

End Handlers.

End Hook.

(* ================================================================== *)
(** * Further sample inputs *)
(* ================================================================== *)

Module Samples.
Import JS WebAudio GeminiLive Wire.

Local Open Scope string_scope.
Local Open Scope list_scope.

(** The consumer while it waits for a reply. *)
Definition hook_waiting : Hook.State :=
  Hook.mkState Hook.processing "" [] "".

(** A reply in progress: two texts around an audio part and an empty text,
    with the grounding metadata of the specification's example. *)
Definition grounded_reply : ServerContent :=
  mkServerContent
    [TextPart "Hello"; AudioPart payload_one_sample; TextPart "";
     TextPart " there"]
    (Some example_metadata) false.

(** A server content with grounding metadata but no model turn. *)
Definition orphan_metadata : list (string * value) :=
  [("groundingMetadata", js_of_metadata example_metadata);
   ("turnComplete", Bool true)].

(** A message whose second part is [null]. *)
Definition null_among_parts : value :=
  Obj [("serverContent",
        Obj [("modelTurn",
              Obj [("parts",
                    Arr (map js_of_part [AudioPart payload_one_sample]
                         ++ Null :: [js_of_part (TextPart "late")]))]);
             ("turnComplete", Bool true)])].

(** The body of a response of the request/response service. *)
Definition gemini_reply : value :=
  Obj [("candidates",
        Arr [Obj [("content", Obj [("parts", Arr [Obj [("text", Str "Hello")]])]);
                  ("groundingMetadata", js_of_metadata example_metadata)]])].

End Samples.

(* ================================================================== *)
(** * Properties *)
(* ================================================================== *)

Import JS WebAudio GeminiLive Wire.

Local Open Scope string_scope.
Local Open Scope list_scope.

(** ** [atob] undoes [btoa] *)

Section Base64Facts.
Import Base64.

Lemma list_ind3 (A : Type) (P : list A -> Prop) :
  P [] -> (forall x, P [x]) -> (forall x y, P [x; y]) ->
  (forall x y z l, P l -> P (x :: y :: z :: l)) ->
  forall l, P l.
Proof.
  intros H0 H1 H2 H3.
  fix IH 1. intros [|x [|y [|z l]]];
    [apply H0 | apply H1 | apply H2 | apply H3, IH].
Qed.

(** The 64 characters of the alphabet are distinct, and none is white
    space or the padding character. *)
Lemma b64_sextet_facts (s : ascii) :
  is_sextet s = true ->
  b64_index (b64_char s) = Some s
  /\ is_ascii_whitespace (b64_char s) = false
  /\ Ascii.eqb (b64_char s) pad = false.
Proof.
  destruct s as [b0 b1 b2 b3 b4 b5 [|] [|]]; try discriminate. intros _.
  destruct b0, b1, b2, b3, b4, b5; vm_compute; auto.
Qed.

Lemma sextets3_sextet (x y z : ascii) :
  forallb is_sextet (sextets3 x y z) = true.
Proof. destruct x, y, z. reflexivity. Qed.

Lemma forallb_firstn (A : Type) (p : A -> bool) (n : nat) (l : list A) :
  forallb p l = true -> forallb p (firstn n l) = true.
Proof.
  revert n. induction l as [|a l IH]; intros [|n] H; simpl in *; auto.
  apply andb_true_iff in H. destruct H as [Ha Hl].
  rewrite Ha. simpl. now apply IH.
Qed.

Lemma sextets_sextet (bs : list ascii) : forallb is_sextet (sextets bs) = true.
Proof.
  induction bs as [|x|x y|x y z l IH] using list_ind3.
  - reflexivity.
  - apply forallb_firstn, sextets3_sextet.
  - apply forallb_firstn, sextets3_sextet.
  - change (sextets (x :: y :: z :: l)) with (sextets3 x y z ++ sextets l).
    rewrite forallb_app, sextets3_sextet, IH. reflexivity.
Qed.

Lemma encode_sextets (bs : list ascii) :
  encode bs = map b64_char (sextets bs) ++ padding bs.
Proof.
  induction bs as [|x|x y|x y z l IH] using list_ind3.
  - reflexivity.
  - destruct x; reflexivity.
  - destruct x, y; reflexivity.
  - change (encode (x :: y :: z :: l))
      with (map b64_char (sextets3 x y z) ++ encode l).
    change (sextets (x :: y :: z :: l)) with (sextets3 x y z ++ sextets l).
    change (padding (x :: y :: z :: l)) with (padding l).
    rewrite IH, map_app, app_assoc. reflexivity.
Qed.

Lemma padding_cases (bs : list ascii) :
  padding bs = [] \/ padding bs = [pad] \/ padding bs = [pad; pad].
Proof.
  induction bs as [|x|x y|x y z l IH] using list_ind3; simpl; auto.
Qed.

Lemma encode_length (bs : list ascii) :
  exists k, List.length (encode bs) = (k * 4)%nat.
Proof.
  induction bs as [|x|x y|x y z l IH] using list_ind3.
  - now exists 0%nat.
  - exists 1%nat. destruct x; reflexivity.
  - exists 1%nat. destruct x, y; reflexivity.
  - destruct IH as [k Hk]. exists (S k).
    change (encode (x :: y :: z :: l))
      with (map b64_char (sextets3 x y z) ++ encode l).
    rewrite length_app, Hk. destruct x, y, z. reflexivity.
Qed.

Lemma sextets_length (bs : list ascii) :
  exists k r, List.length (sextets bs) = (r + k * 4)%nat
              /\ (r = 0 \/ r = 2 \/ r = 3)%nat.
Proof.
  induction bs as [|x|x y|x y z l IH] using list_ind3.
  - exists 0%nat, 0%nat. auto.
  - exists 0%nat, 2%nat. destruct x; auto.
  - exists 0%nat, 3%nat. destruct x, y; auto.
  - destruct IH as (k & r & Hk & Hr). exists (S k), r. split; [|exact Hr].
    change (sextets (x :: y :: z :: l)) with (sextets3 x y z ++ sextets l).
    rewrite length_app, Hk. destruct x, y, z. simpl. lia.
Qed.

Lemma encode_no_whitespace (bs : list ascii) :
  filter (fun c => negb (is_ascii_whitespace c)) (encode bs) = encode bs.
Proof.
  rewrite encode_sextets, filter_app.
  assert (Hp : filter (fun c => negb (is_ascii_whitespace c)) (padding bs)
               = padding bs).
  { destruct (padding_cases bs) as [E|[E|E]]; rewrite E; reflexivity. }
  rewrite Hp. f_equal.
  pose proof (sextets_sextet bs) as H.
  induction (sextets bs) as [|s sx IH]; [reflexivity|].
  simpl in H. apply andb_true_iff in H. destruct H as [Hs Hsx].
  destruct (b64_sextet_facts s Hs) as (_ & W & _).
  simpl. rewrite W. simpl. f_equal. now apply IH.
Qed.

Lemma indices_chars (sx : list ascii) :
  forallb is_sextet sx = true -> indices (map b64_char sx) = Some sx.
Proof.
  induction sx as [|s sx IH]; intros H; [reflexivity|].
  simpl in H. apply andb_true_iff in H. destruct H as [Hs Hsx].
  destruct (b64_sextet_facts s Hs) as (I & _ & _).
  simpl. rewrite I, (IH Hsx). reflexivity.
Qed.

Lemma strip_padding_chars (sx pads : list ascii) :
  forallb is_sextet sx = true ->
  pads = [] \/ pads = [pad] \/ pads = [pad; pad] ->
  strip_padding (map b64_char sx ++ pads) = map b64_char sx.
Proof.
  intros Hsx Hp. unfold strip_padding.
  assert (Hlast : match rev (map b64_char sx) with
                  | [] => True
                  | p :: _ => Ascii.eqb p pad = false
                  end).
  { destruct (rev (map b64_char sx)) as [|p r] eqn:E; [exact I|].
    assert (Hin : In p (map b64_char sx)).
    { apply in_rev. rewrite E. now left. }
    apply in_map_iff in Hin. destruct Hin as (s & <- & Hs).
    rewrite forallb_forall in Hsx.
    now destruct (b64_sextet_facts s (Hsx s Hs)) as (_ & _ & P). }
  assert (Hrev : rev (rev (map b64_char sx)) = map b64_char sx)
    by apply rev_involutive.
  destruct Hp as [->|[->| ->]]; rewrite rev_app_distr; simpl.
  - rewrite app_nil_r.
    destruct (rev (map b64_char sx)) as [|p [|q r]] eqn:E.
    + reflexivity.
    + now rewrite Hlast.
    + now rewrite Hlast.
  - destruct (rev (map b64_char sx)) as [|q r] eqn:E.
    + simpl in Hrev. now rewrite <- Hrev.
    + rewrite Hlast. exact Hrev.
  - exact Hrev.
Qed.

Lemma decode_sextets_sextets (bs : list ascii) :
  decode_sextets (sextets bs) = bs.
Proof.
  induction bs as [|x|x y|x y z l IH] using list_ind3.
  - reflexivity.
  - destruct x; reflexivity.
  - destruct x, y; reflexivity.
  - change (sextets (x :: y :: z :: l)) with (sextets3 x y z ++ sextets l).
    destruct x, y, z. simpl. now rewrite IH.
Qed.

Lemma decode_encode (bs : list ascii) : decode (encode bs) = Some bs.
Proof.
  unfold decode. rewrite encode_no_whitespace.
  destruct (encode_length bs) as [k Hk].
  rewrite Hk, Nat.Div0.mod_mul, Nat.eqb_refl.
  rewrite encode_sextets, strip_padding_chars
    by (apply sextets_sextet || apply padding_cases).
  rewrite length_map.
  destruct (sextets_length bs) as (n & r & Hn & Hr).
  rewrite Hn, Nat.Div0.mod_add.
  assert (Hr1 : (r mod 4 =? 1)%nat = false)
    by (destruct Hr as [->|[->| ->]]; reflexivity).
  rewrite Hr1, indices_chars by apply sextets_sextet.
  simpl. now rewrite decode_sextets_sextets.
Qed.

Lemma atob_btoa (s : string) : atob (btoa s) = Some s.
Proof.
  unfold atob, btoa.
  rewrite list_ascii_of_string_of_list_ascii, decode_encode. simpl.
  now rewrite string_of_list_ascii_of_string.
Qed.

End Base64Facts.

(** ** The int16 conversion of outbound samples *)

Section Numeric.
Local Open Scope Q_scope.

Lemma Qtrunc_nonneg (r : Q) :
  0 <= r ->
  inject_Z (Qtrunc r) <= r /\ r < inject_Z (Qtrunc r) + 1 /\ (0 <= Qtrunc r)%Z.
Proof.
  destruct r as [a b]. unfold Qtrunc, Qle, Qlt, Qplus, inject_Z. simpl.
  intros Ha.
  assert (Hb : (0 < Z.pos b)%Z) by lia.
  assert (Ha' : (0 <= a)%Z) by lia.
  pose proof (Z.quot_rem' a (Z.pos b)) as E.
  pose proof (Z.rem_bound_pos a (Z.pos b) Ha' Hb) as B.
  pose proof (Z.quot_pos a (Z.pos b) Ha' Hb) as P.
  repeat split; try lia; nia.
Qed.

Lemma Qtrunc_opp (r : Q) : Qtrunc (- r) = (- Qtrunc r)%Z.
Proof.
  destruct r as [a b]. unfold Qtrunc, Qopp. simpl.
  apply Z.quot_opp_l. lia.
Qed.

Lemma Qtrunc_nonpos (r : Q) :
  r <= 0 ->
  r <= inject_Z (Qtrunc r) /\ inject_Z (Qtrunc r) - 1 < r /\ (Qtrunc r <= 0)%Z.
Proof.
  intros Hr.
  assert (H0 : 0 <= - r) by lra.
  destruct (Qtrunc_nonneg _ H0) as (A & B & C).
  rewrite Qtrunc_opp in A, B, C.
  rewrite inject_Z_opp in A, B.
  repeat split; try lra; lia.
Qed.

(** Truncation moves a number by less than one. *)
Lemma Qtrunc_error (r : Q) : Qabs (inject_Z (Qtrunc r) - r) < 1.
Proof.
  apply Qabs_Qlt_condition.
  destruct (Qlt_le_dec r 0) as [N|P].
  - assert (N' : r <= 0) by lra.
    destruct (Qtrunc_nonpos _ N') as (A & B & C). lra.
  - destruct (Qtrunc_nonneg _ P) as (A & B & C). lra.
Qed.

Lemma clamp_Fin (q : Q) : clamp (Fin q) = Fin (clampQ q).
Proof.
  unfold clamp, clampQ, Math_min, Math_max, num_leb.
  destruct (Qle_bool 1 q); [reflexivity|].
  destruct (Qle_bool (-1) q); reflexivity.
Qed.

Lemma clampQ_range (q : Q) : -1 <= clampQ q /\ clampQ q <= 1.
Proof.
  unfold clampQ.
  destruct (Qle_bool 1 q) eqn:H1; [lra|].
  destruct (Qle_bool (-1) q) eqn:H2; [|lra].
  apply Qle_bool_iff in H2. split; [exact H2|].
  destruct (Qlt_le_dec q 1) as [L|L]; [lra|].
  apply Qle_bool_iff in L. congruence.
Qed.

Lemma clampQ_id (q : Q) : -1 <= q -> q <= 1 -> clampQ q == q.
Proof.
  intros Hlo Hhi. unfold clampQ.
  destruct (Qle_bool 1 q) eqn:H1.
  - apply Qle_bool_iff in H1. lra.
  - destruct (Qle_bool (-1) q) eqn:H2; [reflexivity|].
    apply Qle_bool_iff in Hlo. congruence.
Qed.

Lemma Qtrunc_scaled_range (c : Q) :
  -1 <= c -> c <= 1 -> (-32767 <= Qtrunc (c * 32767) <= 32767)%Z.
Proof.
  intros Hlo Hhi.
  destruct (Qlt_le_dec (c * 32767) 0) as [N|P].
  - assert (N' : c * 32767 <= 0) by lra.
    destruct (Qtrunc_nonpos _ N') as (A & B & C).
    split; [|lia].
    rewrite Zle_Qle. change (inject_Z (-32767)) with (-32767). lra.
  - destruct (Qtrunc_nonneg _ P) as (A & B & C).
    split; [lia|].
    rewrite Zle_Qle. change (inject_Z 32767) with 32767. lra.
Qed.

Lemma wrap_small (t : Z) :
  (-32768 <= t <= 32767)%Z -> ((t + 32768) mod 65536 - 32768)%Z = t.
Proof. intros H. rewrite Z.mod_small; lia. Qed.

(** On a finite sample the conversion is: clamp, scale, truncate; the
    wrap-around of [ToInt16] never applies. *)
Lemma pcm_sample_Fin (q : Q) :
  pcm_sample (Fin q) = Qtrunc (clampQ q * 32767).
Proof.
  unfold pcm_sample. rewrite clamp_Fin. simpl.
  destruct (clampQ_range q) as [Hlo Hhi].
  apply wrap_small. pose proof (Qtrunc_scaled_range _ Hlo Hhi). lia.
Qed.

Lemma pcm_sample_range (v : number) : (-32767 <= pcm_sample v <= 32767)%Z.
Proof.
  destruct v as [|[|]|q]; try (vm_compute; split; discriminate).
  rewrite pcm_sample_Fin.
  destruct (clampQ_range q). now apply Qtrunc_scaled_range.
Qed.

Lemma Qmake_scale (z : Z) (p : positive) : z # p == inject_Z z * (1 # p).
Proof. unfold Qeq, Qmult, inject_Z. simpl. lia. Qed.

Lemma roundtrip_sample_error (q : Q) :
  -1 <= q -> q <= 1 ->
  Qabs ((pcm_sample (Fin q) # 32768) - q) < 2 # 32768.
Proof.
  intros Hlo Hhi. rewrite pcm_sample_Fin.
  pose proof (clampQ_id q Hlo Hhi) as Hc.
  set (c := clampQ q) in *.
  rewrite Qmake_scale. apply Qabs_Qlt_condition.
  destruct (Qlt_le_dec (c * 32767) 0) as [N|P].
  - assert (N' : c * 32767 <= 0) by lra.
    destruct (Qtrunc_nonpos _ N') as (A & B & C). lra.
  - destruct (Qtrunc_nonneg _ P) as (A & B & C). lra.
Qed.

End Numeric.

(** ** The bytes of an [Int16Array] and the frame that carries them *)

Section Codec.

Lemma Z_of_byte_of_Z (z : Z) : Z_of_byte (byte_of_Z z) = (z mod 256)%Z.
Proof.
  unfold Z_of_byte, byte_of_Z.
  assert (H : (0 <= z mod 256 < 256)%Z) by (apply Z.mod_pos_bound; lia).
  rewrite N_ascii_embedding by lia.
  rewrite Z2N.id; lia.
Qed.

Lemma int16_bytes_roundtrip (z : Z) :
  (-32768 <= z <= 32767)%Z ->
  int16_of_bytes (byte_of_Z (z mod 65536)) (byte_of_Z (z mod 65536 / 256)) = z.
Proof.
  intros Hz. unfold int16_of_bytes. rewrite !Z_of_byte_of_Z.
  assert (E : ((z mod 65536) mod 256 + 256 * ((z mod 65536 / 256) mod 256)
               = z mod 65536)%Z).
  { pose proof (Z.mod_pos_bound z 65536 ltac:(lia)) as B.
    rewrite (Z.mod_small (z mod 65536 / 256) 256).
    - symmetry. rewrite Z.add_comm. apply Z.div_mod. lia.
    - split; [apply Z.div_pos; lia|apply Z.div_lt_upper_bound; lia]. }
  rewrite E.
  destruct (Z.ltb_spec (z mod 65536) 32768) as [L|G].
  - destruct (Z.le_gt_cases 0 z) as [P|N].
    + apply Z.mod_small. lia.
    + exfalso. replace z with ((z + 65536) + (-1) * 65536)%Z in L by lia.
      rewrite Z.mod_add, Z.mod_small in L; lia.
  - destruct (Z.le_gt_cases 0 z) as [P|N].
    + exfalso. rewrite Z.mod_small in G; lia.
    + replace z with ((z + 65536) + (-1) * 65536)%Z at 1 by lia.
      rewrite Z.mod_add, Z.mod_small; lia.
Qed.

Lemma Int16Array_roundtrip (zs : list Z) :
  Forall (fun z => (-32768 <= z <= 32767)%Z) zs ->
  Int16Array_of_buffer (Int16Array_buffer zs) = Some zs.
Proof.
  induction 1 as [|z zs Hz _ IH]; [reflexivity|].
  change (Int16Array_of_buffer (Int16Array_buffer (z :: zs)))
    with (match Int16Array_of_buffer (Int16Array_buffer zs) with
          | Some l =>
              Some (int16_of_bytes (byte_of_Z (z mod 65536))
                      (byte_of_Z (z mod 65536 / 256)) :: l)
          | None => None
          end).
  rewrite IH, int16_bytes_roundtrip by exact Hz. reflexivity.
Qed.

Lemma Int16Array_odd (bs : list ascii) :
  Nat.odd (List.length bs) = true -> Int16Array_of_buffer bs = None.
Proof.
  revert bs. fix IH 1. intros [|lo [|hi rest]]; intros H.
  - discriminate.
  - reflexivity.
  - change (Int16Array_of_buffer (lo :: hi :: rest))
      with (match Int16Array_of_buffer rest with
            | Some l => Some (int16_of_bytes lo hi :: l)
            | None => None
            end).
    rewrite (IH rest); [reflexivity|exact H].
Qed.

Lemma pcm_samples_int16 (channelData : list number) :
  Forall (fun z => (-32768 <= z <= 32767)%Z) (pcm_samples channelData).
Proof.
  unfold pcm_samples. apply Forall_map, Forall_forall. intros v _.
  pose proof (pcm_sample_range v). lia.
Qed.

Lemma buffer_of_pcm_samples (zs : list Z) :
  Forall (fun z => (-32768 <= z <= 32767)%Z) zs ->
  buffer_of_pcm (Int16Array_buffer zs) =
  match zs with
  | [] => inl NotSupportedError
  | _ => inr (mkAudioBuffer 24000 (map float_sample zs) [])
  end.
Proof.
  intros H. unfold buffer_of_pcm. rewrite (Int16Array_roundtrip _ H).
  destruct zs; reflexivity.
Qed.

(** The spread call returns for a buffer within the argument limit and
    throws beyond it. *)
Lemma base64_of_bytes_cases (maxArguments : nat) (bytes : list ascii) :
  ((List.length bytes <= maxArguments)%nat ->
   base64_of_bytes maxArguments bytes
   = inr (Base64.btoa (string_of_list_ascii bytes)))
  /\ ((maxArguments < List.length bytes)%nat ->
      base64_of_bytes maxArguments bytes = inl RangeError).
Proof.
  unfold base64_of_bytes, fromCharCode_spread.
  destruct (Nat.leb_spec (List.length bytes) maxArguments) as [H|H];
    split; intros H'; try reflexivity; lia.
Qed.

Lemma base64_of_bytes_returns (maxArguments : nat) (bytes : list ascii)
      (frame : string) :
  base64_of_bytes maxArguments bytes = inr frame ->
  frame = Base64.btoa (string_of_list_ascii bytes)
  /\ (List.length bytes <= maxArguments)%nat.
Proof.
  unfold base64_of_bytes, fromCharCode_spread.
  destruct (Nat.leb_spec (List.length bytes) maxArguments) as [H|H];
    simpl; intros E; [|discriminate].
  injection E as <-. now split.
Qed.

Lemma length_Int16Array_buffer (zs : list Z) :
  List.length (Int16Array_buffer zs) = (2 * List.length zs)%nat.
Proof.
  induction zs as [|z zs IH]; [reflexivity|].
  change (Int16Array_buffer (z :: zs))
    with (int16_bytes z ++ Int16Array_buffer zs).
  rewrite length_app, IH. simpl. lia.
Qed.

Lemma decodeInbound_base64 (maxArguments : nat) (bytes : list ascii)
      (frame : string) :
  base64_of_bytes maxArguments bytes = inr frame ->
  decodeInbound frame = buffer_of_pcm bytes.
Proof.
  intros H. apply base64_of_bytes_returns in H. destruct H as [-> _].
  unfold decodeInbound.
  now rewrite atob_btoa, list_ascii_of_string_of_list_ascii.
Qed.

(** Decoding what was encoded gives the samples of the two conversion
    loops, one applied after the other; an empty frame gives no buffer. *)
Lemma decode_encode_samples (R : AudioBuffer -> exn + AudioBuffer)
      (maxArguments : nat) (audioBuffer : AudioBuffer) (frame : string) :
  encodeOutbound R maxArguments audioBuffer = inr frame ->
  exists channelData,
    (needs_resampling audioBuffer = false -> channelData = channel0 audioBuffer)
    /\ decodeInbound frame =
       match channelData with
       | [] => inl NotSupportedError
       | _ => inr (mkAudioBuffer 24000
                     (map float_sample (pcm_samples channelData)) [])
       end.
Proof.
  unfold encodeOutbound, pcm_of_buffer. intros H.
  destruct (needs_resampling audioBuffer) eqn:E.
  - destruct (R audioBuffer) as [e|resampled]; [discriminate|].
    simpl in H. exists (channel0 resampled).
    split; [discriminate|].
    rewrite (decodeInbound_base64 _ _ _ H), buffer_of_pcm_samples
      by apply pcm_samples_int16.
    destruct (channel0 resampled); reflexivity.
  - simpl in H. exists (channel0 audioBuffer).
    split; [reflexivity|].
    rewrite (decodeInbound_base64 _ _ _ H), buffer_of_pcm_samples
      by apply pcm_samples_int16.
    destruct (channel0 audioBuffer); reflexivity.
Qed.

(** Without resampling the encoder returns a frame exactly when the two
    bytes of every sample fit the argument limit together. *)
Lemma encodeOutbound_limit (R : AudioBuffer -> exn + AudioBuffer)
      (maxArguments : nat) (x : list number) :
  ((2 * List.length x <= maxArguments)%nat ->
   exists frame,
     encodeOutbound R maxArguments (mkAudioBuffer 16000 x []) = inr frame)
  /\ ((maxArguments < 2 * List.length x)%nat ->
      encodeOutbound R maxArguments (mkAudioBuffer 16000 x [])
      = inl RangeError).
Proof.
  assert (L : List.length (Int16Array_buffer (pcm_samples x))
              = (2 * List.length x)%nat).
  { rewrite length_Int16Array_buffer. unfold pcm_samples.
    now rewrite length_map. }
  destruct (base64_of_bytes_cases maxArguments
              (Int16Array_buffer (pcm_samples x))) as [A B].
  rewrite L in A, B.
  change (encodeOutbound R maxArguments (mkAudioBuffer 16000 x []))
    with (base64_of_bytes maxArguments (Int16Array_buffer (pcm_samples x))).
  split; intros H; [eexists; now apply A|now apply B].
Qed.

End Codec.

(** ** The codec claims *)

Section CodecClaims.

(** C1, as amended.  For a 16 kHz mono buffer (no resampling), the
    encoder returns a frame when the byte count, two for each sample, is
    within the engine's limit on the arguments of a call, and throws a
    [RangeError] from [String.fromCharCode(...bytes)] beyond it.  When it
    returns a frame, every sample [q] of the buffer that lies in [[-1, 1]]
    comes back from [decodeInbound] of that frame at the same index within
    less than two int16 steps: [|y - q| < 2/32768].  One step is not
    enough: the conversion truncates, and it scales by 32767 where
    decoding divides by 32768. *)
Theorem roundtrip_within_two_steps
        (R : AudioBuffer -> exn + AudioBuffer) (maxArguments : nat)
        (x : list number) (i : nat) (q : Q) :
  nth_error x i = Some (Fin q) -> (-1 <= q)%Q -> (q <= 1)%Q ->
  ((2 * List.length x <= maxArguments)%nat ->
   exists frame,
     encodeOutbound R maxArguments (mkAudioBuffer 16000 x []) = inr frame)
  /\ ((maxArguments < 2 * List.length x)%nat ->
      encodeOutbound R maxArguments (mkAudioBuffer 16000 x [])
      = inl RangeError)
  /\ forall frame,
      encodeOutbound R maxArguments (mkAudioBuffer 16000 x []) = inr frame ->
      exists out y,
        decodeInbound frame = inr out
        /\ nth_error (channel0 out) i = Some (Fin y)
        /\ (Qabs (y - q) < 2 # 32768)%Q.
Proof.
  intros Hi Hlo Hhi.
  destruct (encodeOutbound_limit R maxArguments x) as [A B].
  split; [exact A|]. split; [exact B|].
  intros frame He.
  exists (mkAudioBuffer 24000 (map float_sample (pcm_samples x)) []),
         (pcm_sample (Fin q) # 32768)%Q.
  split; [|split].
  - change (encodeOutbound R maxArguments (mkAudioBuffer 16000 x []))
      with (base64_of_bytes maxArguments (Int16Array_buffer (pcm_samples x)))
      in He.
    rewrite (decodeInbound_base64 _ _ _ He), buffer_of_pcm_samples
      by apply pcm_samples_int16.
    destruct x; [destruct i; discriminate|reflexivity].
  - simpl. unfold pcm_samples. rewrite !nth_error_map, Hi. reflexivity.
  - now apply roundtrip_sample_error.
Qed.

Lemma roundtrip_within_two_steps_witness :
  exists frame out y,
    encodeOutbound same_buffer argument_limit
      (mkAudioBuffer 16000 [Fin (1 # 4)] []) = inr frame
    /\ decodeInbound frame = inr out
    /\ nth_error (channel0 out) 0 = Some (Fin y)
    /\ (Qabs (y - (1 # 4)) < 2 # 32768)%Q.
Proof.
  destruct (roundtrip_within_two_steps same_buffer argument_limit
              [Fin (1 # 4)] 0 (1 # 4)) as (A & _ & C).
  - reflexivity.
  - vm_compute. discriminate.
  - vm_compute. discriminate.
  - destruct A as (frame & E); [apply Nat.leb_le; vm_compute; reflexivity|].
    destruct (C frame E) as (out & y & D & N & B).
    exists frame, out, y. auto.
Defined.

(** C1 as stated fails at the sample [1 - 2^-24], the largest binary32
    value below 1: it is encoded as 32766 and decoded as [32766/32768],
    which is away from it by more than [1/32768]. *)
Lemma roundtrip_one_step_exceeded :
  exists frame out y,
    encodeOutbound same_buffer argument_limit
      (mkAudioBuffer 16000 [Fin (16777215 # 16777216)] []) = inr frame
    /\ decodeInbound frame = inr out
    /\ nth_error (channel0 out) 0 = Some (Fin y)
    /\ (-1 <= 16777215 # 16777216)%Q /\ (16777215 # 16777216 <= 1)%Q
    /\ ~ (Qabs (y - (16777215 # 16777216)) <= 1 # 32768)%Q.
Proof.
  eexists. eexists. eexists.
  split; [vm_compute; reflexivity|].
  split; [vm_compute; reflexivity|].
  split; [vm_compute; reflexivity|].
  split; [vm_compute; discriminate|].
  split; [vm_compute; discriminate|].
  intros H. vm_compute in H. apply H. reflexivity.
Qed.

(** C7, as amended.  For every sample [v] that is not [NaN], with [c] its
    clamped value, the int16 conversion is off by less than one whole step:
    [|int16(v)/32767 - c| < 1/32767].  The conversion truncates toward
    zero, it does not round, so half a step is not a bound. *)
Theorem quantization_error_below_one_step (v : number) (c : Q) :
  clamp v = Fin c ->
  (Qabs ((pcm_sample v # 32767) - c) < 1 # 32767)%Q.
Proof.
  destruct v as [|[|]|q]; intros H.
  - discriminate.
  - vm_compute in H. injection H as <-. vm_compute. reflexivity.
  - vm_compute in H. injection H as <-. vm_compute. reflexivity.
  - rewrite clamp_Fin in H. injection H as <-.
    rewrite pcm_sample_Fin, Qmake_scale.
    pose proof (Qtrunc_error (clampQ q * 32767)) as E.
    apply Qabs_Qlt_condition in E. apply Qabs_Qlt_condition. lra.
Qed.

Lemma quantization_error_below_one_step_witness :
  (Qabs ((pcm_sample (Fin (1 # 4)) # 32767) - (1 # 4)) < 1 # 32767)%Q.
Proof.
  apply (quantization_error_below_one_step (Fin (1 # 4)) (1 # 4)).
  reflexivity.
Defined.

(** C7 as stated fails at the sample [0.25]: [0.25 * 32767 = 8191.75] is
    stored as 8191, an error of three quarters of a step. *)
Lemma half_step_exceeded :
  clamp (Fin (1 # 4)) = Fin (1 # 4)
  /\ pcm_sample (Fin (1 # 4)) = 8191%Z
  /\ ~ (Qabs ((pcm_sample (Fin (1 # 4)) # 32767) - (1 # 4)) <= 1 # 65534)%Q.
Proof.
  split; [reflexivity|]. split; [reflexivity|].
  intros H. vm_compute in H. apply H. reflexivity.
Qed.

(** C10.  Whatever the samples of the input, [NaN] and the infinities
    included, every int16 that the outbound conversion produces lies in
    [[-32767, 32767]], so -32768 is never emitted; and every sample of a
    buffer decoded from an encoded frame is a number in
    [[-32767/32768, 32767/32768]]. *)
Theorem pcm_range_and_decoded_range :
  (forall channelData z,
      In z (pcm_samples channelData) -> (-32767 <= z <= 32767)%Z)
  /\ (forall (R : AudioBuffer -> exn + AudioBuffer) (maxArguments : nat)
             audioBuffer frame out y,
         encodeOutbound R maxArguments audioBuffer = inr frame ->
         decodeInbound frame = inr out ->
         In y (channel0 out) ->
         exists q, y = Fin q
                   /\ (- (32767 # 32768) <= q)%Q /\ (q <= 32767 # 32768)%Q).
Proof.
  split.
  - intros channelData z Hz. unfold pcm_samples in Hz.
    apply in_map_iff in Hz. destruct Hz as (v & <- & _).
    apply pcm_sample_range.
  - intros R maxArguments audioBuffer frame out y He Hd Hy.
    destruct (decode_encode_samples R maxArguments audioBuffer frame He)
      as (ch & _ & D).
    rewrite D in Hd.
    assert (Hout : channel0 out = map float_sample (pcm_samples ch)).
    { destruct ch; [discriminate|]. injection Hd as <-. reflexivity. }
    rewrite Hout in Hy.
    apply in_map_iff in Hy. destruct Hy as (z & <- & Hz).
    unfold pcm_samples in Hz. apply in_map_iff in Hz.
    destruct Hz as (w & <- & _).
    exists (pcm_sample w # 32768)%Q. split; [reflexivity|].
    pose proof (pcm_sample_range w) as B.
    unfold Qle. simpl. lia.
Qed.

Lemma pcm_range_and_decoded_range_witness :
  (-32767 <= -32767 <= 32767)%Z
  /\ exists q, Fin (-32767 # 32768) = Fin q
               /\ (- (32767 # 32768) <= q)%Q /\ (q <= 32767 # 32768)%Q.
Proof.
  destruct pcm_range_and_decoded_range as [H1 H2]. split.
  - apply (H1 [Infinity true; NaN]). vm_compute. now left.
  - apply (H2 same_buffer argument_limit
              (mkAudioBuffer 16000 [Fin (-3 # 2)] [])
              "AYA="%string
              (mkAudioBuffer 24000 [Fin (-32767 # 32768)] [])).
    + vm_compute. reflexivity.
    + vm_compute. reflexivity.
    + vm_compute. now left.
Defined.

End CodecClaims.

(** ** Citations *)

Section Citations.

Lemma citation_of_attribution (a : Attribution) :
  citation_of (js_of_attribution a)
  = inr (map js_of_citation (lenient_citation a)).
Proof.
  destruct a as [[[si ei]|] [[u t]|]]; try reflexivity.
  destruct si as [[|p|p]|], ei as [[|q|q]|], u as [[|c u]|], t as [[|c' t]|];
    reflexivity.
Qed.

Lemma push_citations_attributions (attrs : list Attribution) :
  push_citations (map js_of_attribution attrs)
  = inr (map js_of_citation (flat_map lenient_citation attrs)).
Proof.
  induction attrs as [|a attrs IH]; [reflexivity|].
  cbn [map push_citations flat_map].
  rewrite citation_of_attribution, IH. cbn [ebind]. now rewrite map_app.
Qed.

(** The lenient extractor is that of the specification on every input
    without an empty title. *)
Lemma lenient_is_spec_without_empty_title (m : GroundingMetadata) :
  (forall a w, In a (default [] m) -> attr_web a = Some w ->
               web_title w <> Some "") ->
  lenient_extractCitations m = spec_extractCitations m.
Proof.
  unfold lenient_extractCitations, spec_extractCitations.
  induction (default [] m) as [|a l IH]; intros H; [reflexivity|].
  cbn [flat_map]. rewrite IH by (intros a' w Hin; apply H; now right).
  f_equal. unfold lenient_citation, spec_citation.
  destruct (attr_segment a) as [g|]; [|reflexivity].
  destruct (attr_web a) as [w|] eqn:E; [|reflexivity].
  specialize (H a w (or_introl eq_refl) E).
  destruct (web_title w) as [[|c t]|]; try reflexivity. now contradiction H.
Qed.

(** C5, as amended.  For every grounding metadata of the wire format,
    [extractCitations] returns one citation per attribution entry that has
    both a segment and a web source, in input order and without
    deduplication, with [startIndex] and [endIndex] defaulting to 0 and
    [uri] to the empty string when absent, and [title] defaulting to
    "Web Source" when absent or empty.  The example of two entries gives
    the citations [{5, 10, "https://x", "X"}] and
    [{0, 0, "", "Web Source"}]. *)
Theorem extractCitations_lenient :
  (forall m : GroundingMetadata,
      extractCitations (js_of_metadata m)
      = inr (map js_of_citation (lenient_extractCitations m)))
  /\ extractCitations (js_of_metadata example_metadata)
     = inr [ mkCitation (js_of_Z 5) (js_of_Z 10) (Str "https://x") (Str "X");
             mkCitation (js_of_Z 0) (js_of_Z 0) (Str "") (Str "Web Source") ].
Proof.
  assert (H : forall m : GroundingMetadata,
             extractCitations (js_of_metadata m)
             = inr (map js_of_citation (lenient_extractCitations m))).
  { intros [attrs|]; [|reflexivity].
    unfold extractCitations, js_of_metadata, lenient_extractCitations.
    cbn -[push_citations]. apply push_citations_attributions. }
  split; [exact H|reflexivity].
Qed.

(** Outside the wire format the extractor may throw: an entry that is
    [null] has no [segment] to read. *)
Lemma extractCitations_null_entry :
  extractCitations (Obj [("groundingAttributions", Arr [Null])]) = inl TypeError.
Proof. reflexivity. Qed.

(** C5 as stated fails on an entry whose title is present and empty: the
    specification keeps the empty title, [||] replaces it by the
    placeholder. *)
Lemma empty_title_is_replaced :
  extractCitations
    (js_of_metadata
       (Some [mkAttribution (Some (mkSegment (Some 5%Z) (Some 10%Z)))
                (Some (mkWeb (Some "https://x") (Some "")))]))
  <> inr (map js_of_citation
            (spec_extractCitations
               (Some [mkAttribution (Some (mkSegment (Some 5%Z) (Some 10%Z)))
                        (Some (mkWeb (Some "https://x") (Some "")))]))).
Proof. vm_compute. discriminate. Qed.

End Citations.

(** ** The session *)

(** Running a method: the monad is unfolded and the result computed. *)
Ltac run :=
  unfold handleMessage, handleServerContent, handlePart, handleAudioResponse,
    pcmToAudioBuffer, playNextAudio, stopAudioPlayback, disconnect,
    sendTextMessage, sendAudioMessage, convertAudioToPCM, dispatch, invoke,
    try_catch, try_finally, bind, ret, throw, lift, emit, gets, modify, when,
    state_of, trace_of, completion_of, ws_open;
  cbn -[count started].

Section Session.

Variable JSON_parse : string -> option value.
Variable ToString : value -> string.
Variable decodeAudioData : list ascii -> option AudioBuffer.
Variable startRendering : AudioBuffer -> exn + AudioBuffer.
Variable maxArguments : nat.

Lemma started_app (t1 t2 : list effect) :
  started (t1 ++ t2) = started t1 ++ started t2.
Proof. unfold started. now rewrite flat_map_app. Qed.

Lemma count_app (p : callback -> bool) (t1 t2 : list effect) :
  count p (t1 ++ t2) = (count p t1 + count p t2)%nat.
Proof.
  unfold count, callbacks. now rewrite flat_map_app, filter_app, length_app.
Qed.

Lemma length_list_ascii_of_string (s : string) :
  List.length (list_ascii_of_string s) = String.length s.
Proof. induction s as [|c s IH]; simpl; congruence. Qed.

(** *** Sending *)

Lemma not_open_cases (s : Service) :
  ws s = None \/ (exists r, ws s = Some r /\ r <> OPEN) -> ws_open s = false.
Proof.
  unfold ws_open. intros [->|(r & -> & Hr)]; [reflexivity|].
  destruct r; try reflexivity. now contradiction Hr.
Qed.

(** C3.  While the transport is absent or not open, [sendTextMessage] and
    [sendAudioMessage] fail with the not-connected error, whatever the text
    or the audio chunk; nothing is sent and the state is unchanged. *)
Theorem send_while_not_open_fails
        (s : Service) (text : string) (others : Meanwhile)
        (audioBlob : list ascii) :
  ws s = None \/ (exists r, ws s = Some r /\ r <> OPEN) ->
  sendTextMessage text s = (s, [], inl not_connected)
  /\ sendAudioMessage decodeAudioData startRendering maxArguments others
       audioBlob s
     = (s, [], inl not_connected).
Proof.
  intros H. apply not_open_cases in H.
  unfold sendTextMessage, sendAudioMessage, bind, gets.
  rewrite H. split; reflexivity.
Qed.

(** On an open transport the text is sent as one complete user turn. *)
Lemma sendTextMessage_sends (s : Service) (text : string) :
  ws_open s = true ->
  sendTextMessage text s
  = (s, [WebSocket_send (clientContentMessage text)], inr tt).
Proof.
  intros Ho. unfold sendTextMessage, bind, gets. rewrite Ho. reflexivity.
Qed.

(** On an open transport, with nothing else running during the awaits,
    the audio chunk is sent as the frame that [encodeOutbound] gives for
    the decoded recording. *)
Lemma sendAudioMessage_sends_frame
      (s : Service) (audioBlob : list ascii) (audioBuffer : AudioBuffer)
      (frame : string) :
  ws_open s = true ->
  decodeAudioData audioBlob = Some audioBuffer ->
  encodeOutbound startRendering maxArguments audioBuffer = inr frame ->
  sendAudioMessage decodeAudioData startRendering maxArguments undisturbed
    audioBlob s
  = (s, [AudioContext_new 16000; AudioContext_close;
         WebSocket_send (realtimeInputMessage frame)], inr tt).
Proof.
  intros Ho Hd He. unfold encodeOutbound in He.
  destruct (pcm_of_buffer startRendering audioBuffer) as [e|bytes] eqn:E;
    [discriminate|].
  simpl in He.
  unfold sendAudioMessage, convertAudioToPCM, ws_send, await, undisturbed,
    try_catch, try_finally, bind, gets, emit, lift, ret.
  rewrite Ho, Hd. cbn. rewrite E. cbn. rewrite He. cbn.
  unfold ws_open in Ho.
  destruct (ws s) as [[| | |]|]; try discriminate. reflexivity.
Qed.

(** *** Disconnecting *)

(** C8.  From every state, two calls of [disconnect] in a row both
    complete normally; after the second the transport handle and the audio
    context are null, the queue is empty, nothing plays and [isConnected]
    is false; and the second call leaves the state as the first left it. *)
Theorem disconnect_twice (s : Service) :
  let r1 := disconnect s in
  let r2 := disconnect (state_of r1) in
  completion_of r1 = inr tt /\ completion_of r2 = inr tt
  /\ state_of r2 = state_of r1
  /\ ws (state_of r2) = None
  /\ isConnected (state_of r2) = false
  /\ audioContext (state_of r2) = None
  /\ audioQueue (state_of r2) = []
  /\ isPlaying (state_of r2) = false
  /\ currentSource (state_of r2) = None.
Proof.
  destruct s as [w si ic ac aq ip cs [h1 h2 h3 h4 h5] live n].
  destruct w, ac, cs, h5; cbv; repeat split.
Qed.

(** *** Stopping playback *)

(** The call itself: the queue is emptied, the flag cleared, the source
    forgotten, and the completion handler invoked once. *)
Lemma stopAudioPlayback_itself (s : Service) :
  has_onAudioPlaybackComplete (handlers s) = true ->
  let r := stopAudioPlayback s in
  completion_of r = inr tt
  /\ audioQueue (state_of r) = []
  /\ isPlaying (state_of r) = false
  /\ currentSource (state_of r) = None
  /\ liveSources (state_of r) = liveSources s
  /\ count is_playback_complete (trace_of r) = 1%nat.
Proof.
  destruct s as [w si ic ac aq ip cs [h1 h2 h3 h4 h5] live n].
  simpl. intros ->. destruct cs; cbv; repeat split.
Qed.

(** C2, where the code departs from it.  When [stopAudioPlayback] is
    called while the current source is playing, the call empties the queue,
    clears the flag and invokes the completion handler once; the [ended]
    event of the stopped source then runs [playNextAudio] on the empty
    queue, which invokes the handler again: twice in all. *)
Theorem stop_mid_playback_completes_twice (s : Service) (node : nat) :
  currentSource s = Some node ->
  is_live node s = true ->
  has_onAudioPlaybackComplete (handlers s) = true ->
  let r1 := stopAudioPlayback s in
  let r2 := dispatch JSON_parse ToString (source_ended_event node) (state_of r1) in
  audioQueue (state_of r1) = []
  /\ isPlaying (state_of r1) = false
  /\ is_live node (state_of r1) = true
  /\ count is_playback_complete (trace_of r1) = 1%nat
  /\ count is_playback_complete (trace_of r1 ++ trace_of r2) = 2%nat.
Proof.
  destruct s as [w si ic ac aq ip cs [h1 h2 h3 h4 h5] live n].
  simpl. intros -> Hl ->. unfold is_live in Hl. simpl in Hl.
  run. unfold is_live. cbn. rewrite Hl. cbn. repeat split.
Qed.

(** *** Unrecognised payloads *)

Lemma lookup_absent (k : string) (fields : list (string * value)) :
  existsb (fun kv => String.eqb k (fst kv)) fields = false ->
  lookup k fields = Undefined.
Proof.
  induction fields as [|[k' v] fields IH]; [reflexivity|].
  simpl. destruct (String.eqb k k'); [discriminate|]. exact IH.
Qed.

Lemma get_absent (v : value) (k : string) :
  has_key v k = false -> get v k = inl TypeError \/ get v k = inr Undefined.
Proof.
  destruct v; simpl; auto. intros H. right. now rewrite lookup_absent.
Qed.

(** C6.  A payload that [JSON.parse] rejects, or whose parsed value has
    neither the key [serverContent] nor the key [setupComplete], is handled
    without invoking any handler, without sending or playing anything and
    without changing the state, and the message handler completes
    normally. *)
Theorem unrecognised_payload_is_dropped (s : Service) (data : string) :
  JSON_parse data = None
  \/ (exists v, JSON_parse data = Some v
                /\ has_key v "serverContent" = false
                /\ has_key v "setupComplete" = false) ->
  let r := handleMessage JSON_parse ToString data s in
  completion_of r = inr tt
  /\ state_of r = s
  /\ callbacks (trace_of r) = []
  /\ sends (trace_of r) = []
  /\ started (trace_of r) = [].
Proof.
  intros [H|(v & H & H1 & H2)]; unfold handleMessage; rewrite H.
  - run. repeat split.
  - unfold try_catch, bind, lift.
    destruct (get_absent v _ H1) as [E1|E1]; rewrite E1.
    + cbn. repeat split.
    + destruct (get_absent v _ H2) as [E2|E2]; cbn; rewrite E2; cbn;
        repeat split.
Qed.

(** *** Inbound audio *)

(** While something plays, a fragment that decodes joins the end of the
    queue. *)
Lemma handleAudioResponse_enqueues (s : Service) (d : string) (b : AudioBuffer) :
  isPlaying s = true ->
  decodeInbound d = inr b ->
  handleAudioResponse ToString (Str d) s
  = (set_audioQueue (audioQueue s ++ [b]) (with_context s),
     context_trace s, inr tt).
Proof.
  destruct s as [w si ic ac aq ip cs h live n].
  simpl. intros -> Hd. unfold decodeInbound in Hd.
  run. destruct (Base64.atob d) as [binaryData|]; [|discriminate].
  destruct ac; cbn; rewrite Hd; reflexivity.
Qed.

Lemma handleAudioResponse_step (s : Service) (d : string) :
  Step s (match decodeInbound d with inr b => [b] | inl _ => [] end)
       (handleAudioResponse ToString (Str d) s).
Proof.
  destruct s as [w si ic ac aq ip cs [h1 h2 h3 h4 h5] live n].
  unfold Step, decodeInbound. run.
  destruct (Base64.atob d) as [binaryData|];
    [destruct (buffer_of_pcm (list_ascii_of_string binaryData)) as [e|b]|];
    destruct ac, ip, aq, h4; cbn; rewrite ?app_nil_r; repeat split.
Qed.

Lemma handlePart_audio (s : Service) (d : string) :
  handlePart ToString (js_of_part (AudioPart d)) s
  = handleAudioResponse ToString (Str d) s.
Proof.
  unfold handlePart, bind, lift, when, ret. cbn -[handleAudioResponse].
  destruct (handleAudioResponse ToString (Str d) s) as [[s' t] c]. reflexivity.
Qed.

Lemma handlePart_step (s : Service) (p : Part) :
  Step s (decoded [p]) (handlePart ToString (js_of_part p) s).
Proof.
  destruct p as [text|d].
  - destruct s as [w si ic ac aq ip cs [h1 h2 h3 h4 h5] live n].
    unfold Step, decoded. run.
    destruct (String.eqb text ""), h1; cbn; rewrite ?app_nil_r; repeat split.
  - rewrite handlePart_audio. unfold decoded. cbn [audio_data flat_map app].
    rewrite app_nil_r. apply handleAudioResponse_step.
Qed.

Lemma Step_bind (s : Service) (bs1 bs2 : list AudioBuffer) (m k : M unit) :
  Step s bs1 (m s) ->
  (forall s1, Step s1 bs2 (k s1)) ->
  Step s (bs1 ++ bs2) (bind m (fun _ => k) s).
Proof.
  unfold Step, bind, state_of, trace_of, completion_of.
  destruct (m s) as [[s1 t1] c1]. simpl. intros (C1 & H1 & Q1 & T1 & G1) Hk.
  subst c1. specialize (Hk s1).
  destruct (k s1) as [[s2 t2] c2]. simpl in *.
  destruct Hk as (C2 & H2 & Q2 & T2 & G2).
  rewrite started_app, !count_app, T1, T2, G1, G2.
  repeat split; try congruence.
  rewrite <- app_assoc, Q2, app_assoc, Q1, app_assoc. reflexivity.
Qed.

Lemma decoded_cons (p : Part) (ps : list Part) :
  decoded (p :: ps) = decoded [p] ++ decoded ps.
Proof.
  unfold decoded. cbn [audio_data flat_map]. rewrite app_nil_r.
  now rewrite flat_map_app.
Qed.

(** The loop over the parts hands the queue, in part order, the buffers of
    the audio parts that decode. *)
Lemma for_each_parts_step (ps : list Part) :
  forall s, Step s (decoded ps)
                 (for_each (map js_of_part ps) (handlePart ToString) s).
Proof.
  induction ps as [|p ps IH]; intros s.
  - unfold Step. cbn. rewrite app_nil_r. repeat split.
  - rewrite decoded_cons. cbn [map for_each].
    apply Step_bind; [apply handlePart_step|exact IH].
Qed.

Lemma handleServerContent_turn (s : Service) (ps : list Part) :
  has_onTurnComplete (handlers s) = true ->
  let r := handleServerContent ToString
             (js_of_serverContent (mkServerContent ps None true)) s in
  completion_of r = inr tt
  /\ started (trace_of r) ++ audioQueue (state_of r) = audioQueue s ++ decoded ps
  /\ count is_turn_complete (trace_of r) = 1%nat
  /\ count is_citations (trace_of r) = 0%nat.
Proof.
  intros Hh.
  pose proof (for_each_parts_step ps s) as H.
  unfold Step, state_of, trace_of, completion_of in H.
  unfold handleServerContent, bind, lift, when, ret, invoke, gets, emit.
  cbn -[for_each handlePart count started].
  destruct (for_each (map js_of_part ps) (handlePart ToString) s)
    as [[s1 t1] c1].
  cbn -[count started] in H. destruct H as (-> & H1 & Q1 & T1 & G1).
  cbn -[count started]. rewrite H1, Hh. cbn -[count started].
  rewrite !app_nil_r, started_app, !count_app, T1, G1. cbn.
  rewrite app_nil_r. repeat split. exact Q1.
Qed.

(** C4, as amended.  For every ServerContent message with exactly two
    audio/pcm parts, each of which decodes (base64 of a non-empty, even
    number of bytes), any number of text parts, [turnComplete: true] and no
    grounding metadata: handling it completes normally; the two decoded
    buffers join the playback queue in part order, behind what was queued
    (the buffers the player took meanwhile counted in front); the
    turn-complete handler, being assigned, is invoked exactly once, and the
    citations handler not at all. *)
Theorem two_audio_parts_and_turn_complete
        (s : Service) (data : string) (ps : list Part)
        (d1 d2 : string) (b1 b2 : AudioBuffer) :
  JSON_parse data = Some (js_of_message (mkServerContent ps None true)) ->
  audio_data ps = [d1; d2] ->
  decodeInbound d1 = inr b1 ->
  decodeInbound d2 = inr b2 ->
  has_onTurnComplete (handlers s) = true ->
  let r := handleMessage JSON_parse ToString data s in
  completion_of r = inr tt
  /\ started (trace_of r) ++ audioQueue (state_of r) = audioQueue s ++ [b1; b2]
  /\ count is_turn_complete (trace_of r) = 1%nat
  /\ count is_citations (trace_of r) = 0%nat.
Proof.
  intros Hp Ha D1 D2 Hh.
  assert (Hd : decoded ps = [b1; b2]).
  { unfold decoded. rewrite Ha. cbn. now rewrite D1, D2. }
  pose proof (handleServerContent_turn s ps Hh) as H.
  unfold state_of, trace_of, completion_of in *.
  unfold handleMessage. rewrite Hp.
  unfold try_catch, bind, lift, when, ret, js_of_message.
  cbn -[handleServerContent js_of_serverContent count started].
  assert (Ht : truthy (js_of_serverContent (mkServerContent ps None true)) = true)
    by reflexivity.
  rewrite Ht.
  destruct (handleServerContent ToString
              (js_of_serverContent (mkServerContent ps None true)) s)
    as [[s1 t1] c1].
  cbn -[count started] in H. destruct H as (-> & Q & T & G).
  cbn -[count started]. rewrite !app_nil_r, <- Hd. repeat split; assumption.
Qed.

(** C9.  An audio part whose payload decodes to an odd number of bytes:
    the [Int16Array] view raises a [RangeError], which
    [handleAudioResponse] catches and logs; the handler completes normally,
    no buffer is enqueued or started, the queue, the playing flag and the
    connection are as before (only the audio context has been created if
    there was none), and the loop over the parts goes on with the parts
    that follow. *)
Theorem odd_length_fragment_is_dropped
        (s : Service) (d binaryData : string) (rest : list Part) :
  Base64.atob d = Some binaryData ->
  Nat.odd (String.length binaryData) = true ->
  let failure := console_error "Error handling audio response:" RangeError in
  let r := handleAudioResponse ToString (Str d) s in
  decodeInbound d = inl RangeError
  /\ completion_of r = inr tt
  /\ state_of r = with_context s
  /\ trace_of r = context_trace s ++ [failure]
  /\ audioQueue (state_of r) = audioQueue s
  /\ isPlaying (state_of r) = isPlaying s
  /\ currentSource (state_of r) = currentSource s
  /\ ws (state_of r) = ws s
  /\ isConnected (state_of r) = isConnected s
  /\ for_each (map js_of_part (AudioPart d :: rest)) (handlePart ToString) s
     = (let '(s2, t2, c) :=
          for_each (map js_of_part rest) (handlePart ToString) (with_context s) in
        (s2, (context_trace s ++ [failure]) ++ t2, c)).
Proof.
  intros Ha Ho.
  assert (Hb : buffer_of_pcm (list_ascii_of_string binaryData) = inl RangeError).
  { unfold buffer_of_pcm. rewrite Int16Array_odd; [reflexivity|].
    now rewrite length_list_ascii_of_string. }
  assert (Hr : handleAudioResponse ToString (Str d) s
               = (with_context s,
                  context_trace s
                  ++ [console_error "Error handling audio response:" RangeError],
                  inr tt)).
  { destruct s as [w si ic ac aq ip cs h live n].
    run. rewrite Ha. cbn. destruct ac; cbn; rewrite Hb; reflexivity. }
  cbn zeta. rewrite Hr. unfold decodeInbound. rewrite Ha, Hb.
  repeat split; try (destruct s as [w si ic [?|] aq ip cs h live n]; reflexivity).
  cbn [map for_each]. unfold bind at 1. rewrite handlePart_audio, Hr.
  reflexivity.
Qed.

End Session.

(** ** The session claims on sample runs *)

Section SampleRuns.

Lemma send_while_not_open_fails_witness :
  sendTextMessage "hello" fresh_service
  = (fresh_service, [], inl not_connected)
  /\ sendAudioMessage no_decodeAudioData same_buffer argument_limit
       undisturbed [] fresh_service
     = (fresh_service, [], inl not_connected).
Proof.
  apply (send_while_not_open_fails no_decodeAudioData same_buffer
           argument_limit fresh_service "hello" undisturbed []).
  left. reflexivity.
Defined.

Lemma stop_mid_playback_completes_twice_witness :
  let r1 := stopAudioPlayback playing_service in
  let r2 := dispatch (parse_as None) no_ToString (source_ended_event 0)
              (state_of r1) in
  audioQueue (state_of r1) = []
  /\ isPlaying (state_of r1) = false
  /\ is_live 0 (state_of r1) = true
  /\ count is_playback_complete (trace_of r1) = 1%nat
  /\ count is_playback_complete (trace_of r1 ++ trace_of r2) = 2%nat.
Proof.
  apply (stop_mid_playback_completes_twice (parse_as None) no_ToString
           playing_service 0); reflexivity.
Defined.

Lemma unrecognised_payload_is_dropped_witness :
  let r := handleMessage (parse_as (Some (Arr [Bool true]))) no_ToString
             "[true]" idle_service in
  completion_of r = inr tt
  /\ state_of r = idle_service
  /\ callbacks (trace_of r) = []
  /\ sends (trace_of r) = []
  /\ started (trace_of r) = [].
Proof.
  apply (unrecognised_payload_is_dropped (parse_as (Some (Arr [Bool true])))
           no_ToString idle_service "[true]").
  right. exists (Arr [Bool true]). repeat split; reflexivity.
Defined.

Lemma two_audio_parts_and_turn_complete_witness :
  let r := handleMessage (parse_as (Some (js_of_message two_audio_parts)))
             no_ToString "two audio parts" idle_service in
  completion_of r = inr tt
  /\ started (trace_of r) ++ audioQueue (state_of r)
     = audioQueue idle_service
       ++ [ mkAudioBuffer 24000 [float_sample 256; float_sample (-254)] [];
            sample_buffer 32767 ]
  /\ count is_turn_complete (trace_of r) = 1%nat
  /\ count is_citations (trace_of r) = 0%nat.
Proof.
  apply (two_audio_parts_and_turn_complete
           (parse_as (Some (js_of_message two_audio_parts))) no_ToString
           idle_service "two audio parts" (sc_parts two_audio_parts)
           payload_two_samples payload_one_sample); reflexivity.
Defined.

(** C4 as stated fails on a message whose first audio part carries a
    single byte: that part is dropped, and one buffer joins the queue
    instead of two. *)
Lemma undecodable_part_is_not_enqueued :
  let r := handleMessage (parse_as (Some (js_of_message one_part_undecodable)))
             no_ToString "one byte, then one sample" idle_service in
  audio_data (sc_parts one_part_undecodable)
  = [payload_one_byte; payload_one_sample]
  /\ sc_groundingMetadata one_part_undecodable = None
  /\ sc_turnComplete one_part_undecodable = true
  /\ started (trace_of r) ++ audioQueue (state_of r) = [sample_buffer 32767]
  /\ ~ (exists b1 b2,
           started (trace_of r) ++ audioQueue (state_of r)
           = audioQueue idle_service ++ [b1; b2]).
Proof.
  repeat split; try reflexivity.
  intros (b1 & b2 & H). vm_compute in H. discriminate H.
Qed.

Lemma odd_length_fragment_is_dropped_witness :
  let failure := console_error "Error handling audio response:" RangeError in
  let r := handleAudioResponse no_ToString (Str payload_one_byte) idle_service in
  decodeInbound payload_one_byte = inl RangeError
  /\ completion_of r = inr tt
  /\ state_of r = with_context idle_service
  /\ trace_of r = context_trace idle_service ++ [failure]
  /\ audioQueue (state_of r) = audioQueue idle_service
  /\ isPlaying (state_of r) = isPlaying idle_service
  /\ currentSource (state_of r) = currentSource idle_service
  /\ ws (state_of r) = ws idle_service
  /\ isConnected (state_of r) = isConnected idle_service
  /\ for_each (map js_of_part [AudioPart payload_one_byte;
                               AudioPart payload_one_sample])
       (handlePart no_ToString) idle_service
     = (let '(s2, t2, c) :=
          for_each (map js_of_part [AudioPart payload_one_sample])
            (handlePart no_ToString) (with_context idle_service) in
        (s2, (context_trace idle_service ++ [failure]) ++ t2, c)).
Proof.
  apply (odd_length_fragment_is_dropped no_ToString idle_service
           payload_one_byte (String zero EmptyString)
           [AudioPart payload_one_sample]); reflexivity.
Defined.

End SampleRuns.

(* ================================================================== *)
(** * Further properties *)
(* ================================================================== *)

Import Runs Samples.

(** ** The int16 conversion, further *)

Section CodecExtras.
Local Open Scope Q_scope.

Lemma Zle_of_Qlt_succ (t1 t2 : Z) :
  inject_Z t1 < inject_Z t2 + 1 -> (t1 <= t2)%Z.
Proof.
  intros L. assert (H : (t1 < t2 + 1)%Z).
  { rewrite Zlt_Qlt, inject_Z_plus. exact L. }
  lia.
Qed.

(** Truncation is monotone. *)
Lemma Qtrunc_monotone (r1 r2 : Q) : r1 <= r2 -> (Qtrunc r1 <= Qtrunc r2)%Z.
Proof.
  intros H.
  destruct (Qlt_le_dec r1 0) as [N1|P1]; destruct (Qlt_le_dec r2 0) as [N2|P2].
  - assert (N1' : r1 <= 0) by lra. assert (N2' : r2 <= 0) by lra.
    destruct (Qtrunc_nonpos _ N1') as (A1 & B1 & C1).
    destruct (Qtrunc_nonpos _ N2') as (A2 & B2 & C2).
    apply Zle_of_Qlt_succ. lra.
  - assert (N1' : r1 <= 0) by lra.
    destruct (Qtrunc_nonpos _ N1') as (A1 & B1 & C1).
    destruct (Qtrunc_nonneg _ P2) as (A2 & B2 & C2). lia.
  - lra.
  - destruct (Qtrunc_nonneg _ P1) as (A1 & B1 & C1).
    destruct (Qtrunc_nonneg _ P2) as (A2 & B2 & C2).
    apply Zle_of_Qlt_succ. lra.
Qed.

Lemma Qtrunc_comp (r1 r2 : Q) : r1 == r2 -> Qtrunc r1 = Qtrunc r2.
Proof.
  intros H.
  assert (H1 : r1 <= r2) by lra. assert (H2 : r2 <= r1) by lra.
  pose proof (Qtrunc_monotone _ _ H1). pose proof (Qtrunc_monotone _ _ H2). lia.
Qed.

Lemma clampQ_monotone (q1 q2 : Q) : q1 <= q2 -> clampQ q1 <= clampQ q2.
Proof.
  intros H. unfold clampQ.
  destruct (Qle_bool 1 q1) eqn:A1; destruct (Qle_bool 1 q2) eqn:A2;
  destruct (Qle_bool (-1) q1) eqn:B1; destruct (Qle_bool (-1) q2) eqn:B2;
  repeat match goal with
         | H : Qle_bool _ _ = true |- _ => apply Qle_bool_iff in H
         | H : Qle_bool ?a ?b = false |- _ =>
             assert (b < a) by (apply Qnot_le_lt; intros C;
                                apply Qle_bool_iff in C; congruence);
             clear H
         end; lra.
Qed.

Lemma clampQ_opp (q : Q) : clampQ (- q) == - clampQ q.
Proof.
  unfold clampQ.
  destruct (Qle_bool 1 (- q)) eqn:A1; destruct (Qle_bool 1 q) eqn:A2;
  destruct (Qle_bool (-1) (- q)) eqn:B1; destruct (Qle_bool (-1) q) eqn:B2;
  repeat match goal with
         | H : Qle_bool _ _ = true |- _ => apply Qle_bool_iff in H
         | H : Qle_bool ?a ?b = false |- _ =>
             assert (b < a) by (apply Qnot_le_lt; intros C;
                                apply Qle_bool_iff in C; congruence);
             clear H
         end; lra.
Qed.

(** X2.  Hard clamping: every sample at or above 1, and positive infinity,
    is stored as 32767; every sample at or below -1, and negative
    infinity, as -32767; [NaN] is stored as 0. *)
Theorem pcm_sample_saturates :
  (forall q, 1 <= q -> pcm_sample (Fin q) = 32767%Z)
  /\ (forall q, q <= -1 -> pcm_sample (Fin q) = (-32767)%Z)
  /\ pcm_sample (Infinity false) = 32767%Z
  /\ pcm_sample (Infinity true) = (-32767)%Z
  /\ pcm_sample NaN = 0%Z.
Proof.
  repeat split; try reflexivity.
  - intros q H. rewrite pcm_sample_Fin.
    rewrite (Qtrunc_comp (clampQ q * 32767) 32767); [reflexivity|].
    destruct (clampQ_range q). pose proof (clampQ_monotone 1 q H) as M.
    change (clampQ 1) with 1 in M. lra.
  - intros q H. rewrite pcm_sample_Fin.
    rewrite (Qtrunc_comp (clampQ q * 32767) (-32767)); [reflexivity|].
    destruct (clampQ_range q). pose proof (clampQ_monotone q (-1) H) as M.
    change (clampQ (-1)) with (-1) in M. lra.
Qed.

(** X3.  The int16 conversion preserves order: if [a <= b] (neither being
    [NaN]) then the code of [a] is at most the code of [b]. *)
Theorem pcm_sample_monotone (a b : number) :
  num_leb a b = true -> (pcm_sample a <= pcm_sample b)%Z.
Proof.
  destruct a as [|[|]|q1], b as [|[|]|q2]; simpl; intros H; try discriminate;
    try (lazymatch goal with
         | |- context [Fin _] => fail
         | _ => vm_compute; discriminate
         end).
  - change (pcm_sample (Infinity true)) with (-32767)%Z.
    pose proof (pcm_sample_range (Fin q2)). lia.
  - change (pcm_sample (Infinity false)) with 32767%Z.
    pose proof (pcm_sample_range (Fin q1)). lia.
  - apply Qle_bool_iff in H. rewrite !pcm_sample_Fin.
    apply Qtrunc_monotone. pose proof (clampQ_monotone _ _ H). lra.
Qed.

(** X4.  The int16 conversion is odd: a sample and its negation get
    opposite codes, because the typed array store truncates toward zero. *)
Theorem pcm_sample_odd (v : number) :
  pcm_sample (opp_number v) = (- pcm_sample v)%Z.
Proof.
  destruct v as [|[|]|q]; try reflexivity.
  simpl opp_number. rewrite !pcm_sample_Fin, <- Qtrunc_opp.
  apply Qtrunc_comp. rewrite clampQ_opp. lra.
Qed.

(** X5.  Encoding a decoded sample does not give its code back: for an
    int16 [z], decoded to [z / 32768] and converted again, the code is one
    step nearer to zero ([z - 1] for a positive [z], [z + 1] for a negative
    one, 0 for 0). *)
Theorem reencoding_loses_one_step (z : Z) :
  (-32768 <= z <= 32767)%Z ->
  pcm_sample (float_sample z) = toward_zero z.
Proof.
  intros Hz. unfold float_sample, num_div_Z. rewrite pcm_sample_Fin.
  assert (Hc : clampQ (z # 32768) = z # 32768).
  { unfold clampQ.
    destruct (Qle_bool 1 (z # 32768)) eqn:A.
    - apply Qle_bool_iff in A. unfold Qle in A. simpl in A. lia.
    - destruct (Qle_bool (-1) (z # 32768)) eqn:B; [reflexivity|].
      assert (C : -1 <= z # 32768) by (unfold Qle; simpl; lia).
      apply Qle_bool_iff in C. congruence. }
  rewrite Hc. unfold Qtrunc, toward_zero. simpl.
  pose proof (Z.quot_rem' (z * 32767) 32768) as E.
  destruct (Z.lt_trichotomy z 0) as [N|[->|P]].
  - rewrite (Z.sgn_neg z N).
    pose proof (Z.rem_bound_pos_neg (z * 32767) 32768 ltac:(lia) ltac:(lia)) as B.
    lia.
  - reflexivity.
  - rewrite (Z.sgn_pos z P).
    pose proof (Z.rem_bound_pos (z * 32767) 32768 ltac:(lia) ltac:(lia)) as B.
    lia.
Qed.

End CodecExtras.

(** ** Inbound handling is confined *)

Section InboundSafety.

Variable JSON_parse : string -> option value.
Variable ToString : value -> string.

Lemma sends_app (t1 t2 : list effect) : sends (t1 ++ t2) = sends t1 ++ sends t2.
Proof. unfold sends. now rewrite flat_map_app. Qed.

Lemma safe_ret (A : Type) (a : A) : inbound_safe (ret a).
Proof. intros s. cbn. auto. Qed.

Lemma safe_throw (A : Type) (e : exn) : inbound_safe (@throw A e).
Proof. intros s. cbn. auto. Qed.

Lemma safe_lift (A : Type) (r : exn + A) : inbound_safe (lift r).
Proof. intros s. cbn. auto. Qed.

Lemma safe_gets (A : Type) (f : Service -> A) : inbound_safe (gets f).
Proof. intros s. cbn. auto. Qed.

Lemma safe_emit (e : effect) : sends [e] = [] -> inbound_safe (emit e).
Proof. intros H s. cbn -[sends]. auto. Qed.

Lemma safe_bind (A B : Type) (m : M A) (k : A -> M B) :
  inbound_safe m -> (forall a, inbound_safe (k a)) -> inbound_safe (bind m k).
Proof.
  intros Hm Hk s. specialize (Hm s). unfold bind, state_of, trace_of in *.
  destruct (m s) as [[s1 t1] [e|a]]; cbn -[sends] in *; [exact Hm|].
  specialize (Hk a s1). unfold state_of, trace_of in Hk.
  destruct (k a s1) as [[s2 t2] c2]. cbn -[sends] in *.
  destruct Hm as (S1 & W1 & C1 & H1 & P1), Hk as (S2 & W2 & C2 & H2 & P2).
  rewrite sends_app, S1, S2. repeat split; try congruence. auto.
Qed.

Lemma safe_when (b : bool) (m : M unit) : inbound_safe m -> inbound_safe (when b m).
Proof. destruct b; [auto|intros _; apply safe_ret]. Qed.

Lemma safe_try_catch (A : Type) (m : M A) (h : exn -> M A) :
  inbound_safe m -> (forall e, inbound_safe (h e)) -> inbound_safe (try_catch m h).
Proof.
  intros Hm Hh s. specialize (Hm s). unfold try_catch, state_of, trace_of in *.
  destruct (m s) as [[s1 t1] [e|a]]; cbn -[sends] in *; [|exact Hm].
  specialize (Hh e s1). unfold state_of, trace_of in Hh.
  destruct (h e s1) as [[s2 t2] c2]. cbn -[sends] in *.
  destruct Hm as (S1 & W1 & C1 & H1 & P1), Hh as (S2 & W2 & C2 & H2 & P2).
  rewrite sends_app, S1, S2. repeat split; try congruence. auto.
Qed.

Lemma safe_for_each (A : Type) (l : list A) (body : A -> M unit) :
  (forall a, inbound_safe (body a)) -> inbound_safe (for_each l body).
Proof.
  intros H. induction l as [|a l IH]; [apply safe_ret|].
  cbn [for_each]. apply safe_bind; auto.
Qed.

Lemma safe_invoke (has : Handlers -> bool) (c : callback) : inbound_safe (invoke has c).
Proof.
  unfold invoke. apply safe_bind; [apply safe_gets|]. intros h.
  apply safe_when, safe_emit. reflexivity.
Qed.

Lemma handleAudioResponse_value (v : value) :
  handleAudioResponse ToString v
  = handleAudioResponse ToString (Str (to_string ToString v)).
Proof. reflexivity. Qed.

Lemma safe_handleAudioResponse (audioData : value) :
  inbound_safe (handleAudioResponse ToString audioData).
Proof.
  rewrite handleAudioResponse_value.
  generalize (to_string ToString audioData). intros d s.
  destruct s as [w si ic ac aq ip cs [h1 h2 h3 h4 h5] live n].
  unfold playback_ok. run.
  destruct (Base64.atob d) as [binaryData|];
    [destruct (buffer_of_pcm (list_ascii_of_string binaryData)) as [e|b]|];
    destruct ac, ip, aq, h4; cbn; repeat split; auto;
    destruct live as [|n1 [|n2 live]]; cbn; try tauto;
    try (intros (? & ? & ?); try discriminate; repeat split; congruence);
    try (intros (? & ?); try discriminate; repeat split; congruence).
Qed.


Lemma safe_handlePart (part : value) : inbound_safe (handlePart ToString part).
Proof.
  unfold handlePart.
  apply safe_bind; [apply safe_lift|]. intros text.
  apply safe_bind; [apply safe_when, safe_invoke|]. intros _.
  apply safe_bind; [apply safe_lift|]. intros inlineData.
  apply safe_bind; [apply safe_lift|]. intros mimeType.
  apply safe_when, safe_bind; [apply safe_lift|]. intros data.
  apply safe_handleAudioResponse.
Qed.

Lemma safe_handleServerContent (content : value) :
  inbound_safe (handleServerContent ToString content).
Proof.
  unfold handleServerContent.
  apply safe_bind; [apply safe_lift|]. intros modelTurn.
  apply safe_bind.
  - apply safe_when. apply safe_bind; [apply safe_lift|]. intros p.
    apply safe_bind; [apply safe_lift|]. intros parts.
    apply safe_bind; [apply safe_for_each, safe_handlePart|]. intros _.
    apply safe_bind; [apply safe_lift|]. intros gm.
    apply safe_when, safe_bind; [apply safe_lift|]. intros citations.
    apply safe_invoke.
  - intros _. apply safe_bind; [apply safe_lift|]. intros tc.
    apply safe_when, safe_invoke.
Qed.

Lemma handleMessage_inbound_safe (data : string) :
  inbound_safe (handleMessage JSON_parse ToString data)
  /\ forall s, completion_of (handleMessage JSON_parse ToString data s) = inr tt.
Proof.
  split.
  - unfold handleMessage. apply safe_try_catch.
    + destruct (JSON_parse data) as [message|]; [|apply safe_throw].
      apply safe_bind; [apply safe_lift|]. intros sc.
      apply safe_bind; [apply safe_when, safe_handleServerContent|]. intros _.
      apply safe_bind; [apply safe_lift|]. intros su.
      apply safe_when, safe_emit. reflexivity.
    + intros e. apply safe_emit. reflexivity.
  - intros s. unfold handleMessage, try_catch, completion_of.
    match goal with |- context [match ?m s with _ => _ end] =>
      destruct (m s) as [[s1 t1] [e|[]]] end; reflexivity.
Qed.

Lemma ended_keeps_playback_ok (node : nat) (s : Service) :
  playback_ok s ->
  let r := ended ToString node s in
  completion_of r = inr tt /\ playback_ok (state_of r).
Proof.
  destruct s as [w si ic ac aq ip cs [h1 h2 h3 h4 h5] live n].
  unfold playback_ok, ended. cbn.
  destruct live as [|n1 [|n2 live]]; [| |tauto].
  - intros (-> & ->). run. unfold is_live. cbn. auto.
  - intros (-> & -> & Hc). run. unfold is_live. cbn.
    destruct (Nat.eqb_spec n1 node) as [->|Hne]; cbn.
    + rewrite Nat.eqb_refl. cbn.
      destruct aq as [|b rest]; cbn; [destruct h5; cbn; auto|].
      destruct ac as [rate|]; [|now contradiction Hc].
      destruct h4; cbn; repeat split; auto; discriminate.
    + repeat split; auto.
Qed.

(** X10.  Whatever the payload, handling an inbound message completes
    normally, writes nothing to the transport, and leaves [ws],
    [isConnected] and the handlers as they were. *)
Theorem inbound_never_sends (data : string) (s : Service) :
  let r := handleMessage JSON_parse ToString data s in
  completion_of r = inr tt
  /\ sends (trace_of r) = []
  /\ ws (state_of r) = ws s
  /\ isConnected (state_of r) = isConnected s
  /\ handlers (state_of r) = handlers s.
Proof.
  destruct (handleMessage_inbound_safe data) as [Hs Hc].
  destruct (Hs s) as (S & W & C & H & _).
  cbn zeta. rewrite Hc. auto.
Qed.

End InboundSafety.

(** ** Messages of the wire format *)

Section Delivery.

Variable ToString : value -> string.

Lemma callbacks_app (t1 t2 : list effect) :
  callbacks (t1 ++ t2) = callbacks t1 ++ callbacks t2.
Proof. unfold callbacks. now rewrite flat_map_app. Qed.

Lemma bind_normal (A B : Type) (m : M A) (k : A -> M B)
      (s s1 : Service) (t1 : list effect) (a : A) :
  m s = (s1, t1, inr a) ->
  bind m k s = (let '(s2, t2, c) := k a s1 in (s2, t1 ++ t2, c)).
Proof. intros H. unfold bind. rewrite H. reflexivity. Qed.

Lemma extractCitations_typed (m : GroundingMetadata) :
  extractCitations (js_of_metadata m)
  = inr (map js_of_citation (lenient_extractCitations m)).
Proof.
  destruct m as [attrs|]; [|reflexivity].
  unfold extractCitations, js_of_metadata, lenient_extractCitations.
  cbn -[push_citations]. apply push_citations_attributions.
Qed.

(** What one part contributes besides its buffer. *)
Lemma handlePart_content (p : Part) (s : Service) :
  let r := handlePart ToString (js_of_part p) s in
  filter is_content (callbacks (trace_of r))
  = (if has_onTextResponse (handlers s)
     then map (fun t => onTextResponse (Str t)) (texts [p]) else [])
  /\ isPlaying (state_of r)
     = isPlaying s || match decoded [p] with [] => false | _ => true end.
Proof.
  destruct p as [text|d].
  - destruct s as [w si ic ac aq ip cs [h1 h2 h3 h4 h5] live n].
    unfold decoded. run.
    destruct (String.eqb text ""), h1; cbn; rewrite ?orb_false_r; auto.
  - rewrite handlePart_audio. unfold decoded, decodeInbound.
    cbn [audio_data flat_map app texts map].
    destruct s as [w si ic ac aq ip cs [h1 h2 h3 h4 h5] live n].
    run.
    destruct (Base64.atob d) as [binaryData|];
      [destruct (buffer_of_pcm (list_ascii_of_string binaryData)) as [e|b]|];
      destruct ac, ip, aq, h4, h1; cbn; auto.
Qed.

Lemma texts_cons (p : Part) (ps : list Part) : texts (p :: ps) = texts [p] ++ texts ps.
Proof. unfold texts. cbn [flat_map]. now rewrite app_nil_r. Qed.

Lemma parts_loop_content (ps : list Part) :
  forall s,
    let r := for_each (map js_of_part ps) (handlePart ToString) s in
    filter is_content (callbacks (trace_of r))
    = (if has_onTextResponse (handlers s)
       then map (fun t => onTextResponse (Str t)) (texts ps) else [])
    /\ isPlaying (state_of r)
       = isPlaying s || match decoded ps with [] => false | _ => true end.
Proof.
  induction ps as [|p ps IH]; intros s.
  - cbn. rewrite orb_false_r. destruct (has_onTextResponse (handlers s)); auto.
  - rewrite (texts_cons p ps), (decoded_cons p ps), map_app.
    cbn [map for_each].
    pose proof (handlePart_step ToString s p) as St.
    pose proof (handlePart_content p s) as Ct.
    unfold Step, state_of, trace_of, completion_of in *.
    destruct (handlePart ToString (js_of_part p) s) as [[s1 t1] c1] eqn:E1.
    cbn [fst snd] in *. destruct St as (-> & H1 & _). destruct Ct as (F1 & P1).
    erewrite bind_normal by exact E1.
    specialize (IH s1). unfold state_of, trace_of in IH.
    destruct (for_each (map js_of_part ps) (handlePart ToString) s1)
      as [[s2 t2] c2].
    cbn [fst snd] in *. destruct IH as (F2 & P2).
    rewrite callbacks_app, filter_app, F1, F2, H1, P2, P1.
    split.
    + destruct (has_onTextResponse (handlers s)); reflexivity.
    + rewrite <- orb_assoc. f_equal.
      destruct (decoded [p]); reflexivity.
Qed.


Lemma deliver_facts (c : ServerContent) (s : Service) :
  let r := deliver ToString c s in
  completion_of r = inr tt
  /\ handlers (state_of r) = handlers s
  /\ started (trace_of r) ++ audioQueue (state_of r)
     = audioQueue s ++ decoded (sc_parts c)
  /\ isPlaying (state_of r)
     = isPlaying s || match decoded (sc_parts c) with [] => false | _ => true end
  /\ (has_onTextResponse (handlers s) = true ->
      has_onCitationsReceived (handlers s) = true ->
      has_onTurnComplete (handlers s) = true ->
      filter is_content (callbacks (trace_of r)) = due_callbacks c).
Proof.
  destruct c as [ps gm tc].
  pose proof (for_each_parts_step ToString ps s) as St.
  pose proof (parts_loop_content ps s) as Ct.
  unfold Step, state_of, trace_of, completion_of in *.
  unfold deliver, handleMessage, parse_as, handleServerContent,
    js_of_message, js_of_serverContent, due_callbacks.
  unfold invoke. unfold try_catch, bind, lift, when, ret, gets, emit.
  cbn [sc_parts sc_groundingMetadata sc_turnComplete].
  cbn -[for_each handlePart count started callbacks extractCitations
        js_of_metadata decoded texts].
  destruct (for_each (map js_of_part ps) (handlePart ToString) s)
    as [[s1 t1] c1].
  cbn [fst snd] in *. destruct St as (-> & H1 & Q1 & _). destruct Ct as (F1 & P1).
  assert (Ht : forall m, truthy (js_of_metadata m) = true)
    by (intros [?|]; reflexivity).
  rewrite <- H1 in *. clear H1.
  destruct s1 as [w1 si1 ic1 ac1 aq1 ip1 cs1 [h1 h2 h3 h4 h5] live1 n1].
  cbn [handlers audioQueue isPlaying
       has_onTextResponse has_onCitationsReceived has_onTurnComplete] in *.
  destruct gm as [m|], tc;
    cbn -[count started callbacks extractCitations js_of_metadata decoded texts];
    rewrite ?Ht, ?extractCitations_typed;
    cbn -[count started callbacks extractCitations js_of_metadata decoded texts];
    destruct h1, h2, h3;
    cbn -[count started callbacks decoded texts];
    rewrite ?app_nil_r, ?started_app, ?callbacks_app, ?filter_app, ?F1;
    cbn -[decoded texts]; rewrite ?app_nil_r;
    repeat split; auto; try discriminate.
  intros _ _ _. now rewrite <- app_assoc.
Qed.

(** X16.  The content callbacks of a message of the wire format, the
    handlers being assigned: one text callback per non-empty text part, in
    part order; then, if grounding metadata is present, one citations
    callback with the extracted citations; then, if [turnComplete] is set,
    the turn-complete callback. *)
Theorem content_callbacks_in_order
        (JSON_parse : string -> option value)
        (s : Service) (data : string) (c : ServerContent) :
  JSON_parse data = Some (js_of_message c) ->
  has_onTextResponse (handlers s) = true ->
  has_onCitationsReceived (handlers s) = true ->
  has_onTurnComplete (handlers s) = true ->
  filter is_content
    (callbacks (trace_of (handleMessage JSON_parse ToString data s)))
  = due_callbacks c.
Proof.
  intros Hp H1 H2 H3.
  assert (E : handleMessage JSON_parse ToString data = deliver ToString c).
  { unfold deliver, handleMessage, parse_as. now rewrite Hp. }
  rewrite E. now apply deliver_facts.
Qed.

End Delivery.

(** ** Runs of the playback queue *)

Section RunsFacts.

Variable JSON_parse : string -> option value.
Variable ToString : value -> string.

Lemma handleMessage_deliver (data : string) (c : ServerContent) :
  JSON_parse data = Some (js_of_message c) ->
  handleMessage JSON_parse ToString data = deliver ToString c.
Proof. intros H. unfold deliver, handleMessage, parse_as. now rewrite H. Qed.

Lemma ended_fifo (node : nat) (s : Service) :
  let r := ended ToString node s in
  completion_of r = inr tt
  /\ started (trace_of r) ++ audioQueue (state_of r) = audioQueue s.
Proof.
  destruct s as [w si ic ac aq ip cs [h1 h2 h3 h4 h5] live n].
  unfold ended. run. unfold is_live. cbn.
  destruct (existsb (fun n0 => (n0 =? node)%nat) live); cbn; [|auto].
  destruct aq as [|b rest]; cbn; [destruct h5; cbn; auto|].
  destruct ac; cbn; [|auto]. destruct h4; cbn; auto.
Qed.

(** X6.  Playback is first in, first out.  In a run where messages of the
    wire format arrive and sources end, the buffers handed to the audio
    device, followed by those still queued, are the buffers that were
    queued at the start followed by the decoded audio parts in order of
    arrival; and the run completes normally. *)
Theorem playback_is_fifo (l : list step) :
  forall s,
    let r := run_steps ToString l s in
    completion_of r = inr tt
    /\ started (trace_of r) ++ audioQueue (state_of r)
       = audioQueue s ++ arrived l.
Proof.
  induction l as [|st l IH]; intros s.
  - cbn. rewrite app_nil_r. auto.
  - unfold run_steps, arrived in *. cbn [for_each flat_map].
    assert (H1 : completion_of (run_step ToString st s) = inr tt
                 /\ started (trace_of (run_step ToString st s))
                    ++ audioQueue (state_of (run_step ToString st s))
                    = audioQueue s
                      ++ match st with
                         | Message c => decoded (sc_parts c)
                         | Ended _ => []
                         end).
    { destruct st as [c|node]; cbn [run_step].
      - destruct (deliver_facts ToString c s) as (C & _ & Q & _). auto.
      - rewrite app_nil_r. apply ended_fifo. }
    unfold state_of, trace_of, completion_of in *.
    destruct (run_step ToString st s) as [[s1 t1] c1] eqn:E1.
    cbn [fst snd] in H1. destruct H1 as (-> & Q1).
    erewrite bind_normal by exact E1.
    specialize (IH s1).
    destruct (for_each l (run_step ToString) s1) as [[s2 t2] c2].
    cbn [fst snd] in *. destruct IH as (-> & Q2).
    split; [reflexivity|].
    rewrite started_app, <- app_assoc, Q2, app_assoc, Q1, app_assoc. reflexivity.
Qed.


Lemma dispatch_keeps_playback_ok (ev : event) (s : Service) :
  playback_ok s ->
  let r := dispatch JSON_parse ToString ev s in
  completion_of r = inr tt /\ playback_ok (state_of r).
Proof.
  intros H. destruct ev as [| data | | node].
  - destruct s as [w si ic ac aq ip cs h live n].
    unfold playback_ok in *. cbn in H. run.
    destruct w as [[| | |]|]; cbn; auto.
  - cbn [dispatch].
    destruct (handleMessage_inbound_safe JSON_parse ToString data) as [Hs Hc].
    split; [apply Hc|]. now apply (Hs s).
  - destruct s as [w si ic ac aq ip cs h live n].
    unfold playback_ok in *. cbn in H. run. destruct w; cbn; auto.
  - apply (ended_keeps_playback_ok ToString node s H).
Qed.

(** X7.  No overlap without interruption.  From a state that satisfies
    [playback_ok] (either no source is live, nothing plays and nothing
    waits; or exactly one source is live, it is the current one,
    [isPlaying] is set and the audio context exists), any sequence of
    socket events (opening, messages with any payload, closing) and of
    [ended] events leads to a state that satisfies it again, so that at
    most one source is live; and no handler throws.  A live current source
    with [isPlaying] unset, as [stopAudioPlayback] can leave behind, is
    not such a state. *)
Theorem playback_never_overlaps (evs : list event) :
  forall s,
    playback_ok s ->
    let r := for_each evs (dispatch JSON_parse ToString) s in
    completion_of r = inr tt
    /\ playback_ok (state_of r)
    /\ (List.length (liveSources (state_of r)) <= 1)%nat.
Proof.
  assert (Hlen : forall s, playback_ok s -> (List.length (liveSources s) <= 1)%nat).
  { intros s. unfold playback_ok. destruct (liveSources s) as [|n1 [|n2 l]];
      cbn; [lia|lia|tauto]. }
  induction evs as [|ev evs IH]; intros s H.
  - cbn. auto.
  - cbn [for_each].
    destruct (dispatch_keeps_playback_ok ev s H) as (C1 & P1).
    unfold state_of, trace_of, completion_of in *.
    destruct (dispatch JSON_parse ToString ev s) as [[s1 t1] c1] eqn:E1.
    cbn [fst snd] in *. subst c1.
    erewrite bind_normal by exact E1.
    specialize (IH s1 P1).
    destruct (for_each evs (dispatch JSON_parse ToString) s1) as [[s2 t2] c2].
    cbn [fst snd] in *. exact IH.
Qed.

(** X8.  Draining.  While a source plays with [q] waiting, letting each
    current source play to its end starts the buffers of [q] in order, one
    playback-start invocation each, and then, once, invokes the
    playback-complete handler; the queue is then empty and nothing
    plays. *)
Theorem queue_drains_in_order (q : list AudioBuffer) :
  forall s,
    playback_ok s ->
    isPlaying s = true ->
    audioQueue s = q ->
    has_onAudioPlaybackStart (handlers s) = true ->
    has_onAudioPlaybackComplete (handlers s) = true ->
    let r := drain ToString (S (List.length q)) s in
    completion_of r = inr tt
    /\ started (trace_of r) = q
    /\ audioQueue (state_of r) = []
    /\ isPlaying (state_of r) = false
    /\ liveSources (state_of r) = []
    /\ count is_playback_start (trace_of r) = List.length q
    /\ count is_playback_complete (trace_of r) = 1%nat.
Proof.
  induction q as [|b q IH]; intros s Hok Hp Hq Hs Hc.
  - destruct s as [w si ic ac aq ip cs [h1 h2 h3 h4 h5] live n].
    unfold playback_ok in Hok. cbn in *. subst.
    destruct live as [|n1 [|n2 live]]; [destruct Hok; discriminate| |tauto].
    destruct Hok as (_ & -> & _).
    unfold drain, end_current, ended. run. unfold is_live. cbn.
    rewrite Nat.eqb_refl. cbn. rewrite Nat.eqb_refl. cbn. repeat split.
  - destruct s as [w si ic ac aq ip cs [h1 h2 h3 h4 h5] live n].
    unfold playback_ok in Hok. cbn in Hok, Hp, Hq, Hs, Hc. subst.
    destruct live as [|n1 [|n2 live]]; [destruct Hok; discriminate| |tauto].
    destruct Hok as (_ & -> & Hctx).
    destruct ac as [rate|]; [|now contradiction Hctx].
    set (s1 := mkService w si ic (Some rate) q true (Some n)
                 (mkHandlers h1 h2 h3 true true) [n] (S n)).
    assert (E : end_current ToString
                  (mkService w si ic (Some rate) (b :: q) true (Some n1)
                     (mkHandlers h1 h2 h3 true true) [n1] n)
                = (s1, [Invoke onAudioPlaybackStart; Source_start n b], inr tt)).
    { unfold end_current, ended. run. unfold is_live. cbn.
      rewrite Nat.eqb_refl. cbn. rewrite Nat.eqb_refl. reflexivity. }
    change (drain ToString (S (List.length (b :: q))))
      with (bind (end_current ToString)
                 (fun _ => drain ToString (S (List.length q)))).
    cbn zeta. erewrite bind_normal by exact E.
    assert (Hok1 : playback_ok s1) by (unfold playback_ok; cbn; repeat split; discriminate).
    specialize (IH s1 Hok1 eq_refl eq_refl eq_refl eq_refl).
    remember (drain ToString (S (List.length q)) s1) as r2 eqn:E2. clear E2.
    destruct r2 as [[s2 t2] c2].
    unfold state_of, trace_of, completion_of in *. cbn [fst snd] in *.
    destruct IH as (-> & St & Q & P & L & Cs & Cc).
    rewrite started_app, !count_app, St, Cs, Cc. cbn. repeat split; auto.
Qed.

(** X9.  What interruption leaves behind.  After [stopAudioPlayback] during
    playback, a fragment that arrives before the stopped source's [ended]
    event starts at once; that event then clears [isPlaying], so the next
    fragment starts on another source while the first still plays: two
    sources are live together, neither of them stopped. *)
Theorem barge_in_overlaps (s : Service) (node : nat) (d1 d2 : string)
        (b1 b2 : AudioBuffer) :
  playback_ok s ->
  currentSource s = Some node ->
  isPlaying s = true ->
  (node < sourceCount s)%nat ->
  decodeInbound d1 = inr b1 ->
  decodeInbound d2 = inr b2 ->
  let r := barge_in ToString node d1 d2 s in
  completion_of r = inr tt
  /\ stopped (trace_of r) = [node]
  /\ started (trace_of r) = [b1; b2]
  /\ liveSources (state_of r) = [S (sourceCount s); sourceCount s]
  /\ isPlaying (state_of r) = true.
Proof.
  clear JSON_parse.
  destruct s as [w si ic ac aq ip cs [h1 h2 h3 h4 h5] live n].
  unfold playback_ok, decodeInbound. cbn.
  intros Hok -> -> Hn D1 D2.
  destruct live as [|n1 [|n2 live]]; [destruct Hok; discriminate| |tauto].
  destruct Hok as (_ & Hcs & Hctx). injection Hcs as ->.
  destruct ac as [rate|]; [|now contradiction Hctx].
  destruct (Base64.atob d1) as [bin1|] eqn:A1; [|discriminate].
  destruct (Base64.atob d2) as [bin2|] eqn:A2; [|discriminate].
  assert (Hne : (n =? n1)%nat = false) by (apply Nat.eqb_neq; lia).
  unfold barge_in, ended. destruct h4, h5; run; unfold is_live;
    repeat (progress (cbn; rewrite ?A1, ?A2, ?D1, ?D2, ?Nat.eqb_refl, ?Hne));
    repeat split.
Qed.

End RunsFacts.

(** ** Sending and the life of the connection *)

Section SessionExtras.

Variable JSON_parse : string -> option value.
Variable ToString : value -> string.
Variable decodeAudioData : list ascii -> option AudioBuffer.
Variable startRendering : AudioBuffer -> exn + AudioBuffer.
Variable maxArguments : nat.

(** X1.  The wire format keeps every int16 code.  For a non-empty
    sequence of int16 samples, laid out as [Int16Array.buffer] lays them
    out: when its byte count, two for each sample, is within the engine's
    limit on the arguments of a call, the encoding of [sendAudioMessage]
    returns a
    frame, which the inbound path decodes to a mono buffer at 24 kHz with
    as many samples, each the code divided by 32768; beyond the limit the
    encoding throws a [RangeError]. *)
Theorem int16_frame_roundtrip (zs : list Z) :
  zs <> [] ->
  Forall (fun z => (-32768 <= z <= 32767)%Z) zs ->
  ((2 * List.length zs <= maxArguments)%nat ->
   exists frame,
     base64_of_bytes maxArguments (Int16Array_buffer zs) = inr frame
     /\ decodeInbound frame
        = inr (mkAudioBuffer 24000 (map float_sample zs) []))
  /\ ((maxArguments < 2 * List.length zs)%nat ->
      base64_of_bytes maxArguments (Int16Array_buffer zs) = inl RangeError).
Proof.
  intros Hne H.
  destruct (base64_of_bytes_cases maxArguments (Int16Array_buffer zs))
    as [A B].
  rewrite length_Int16Array_buffer in A, B.
  split; [|exact B].
  intros L. eexists. split; [exact (A L)|].
  rewrite (decodeInbound_base64 _ _ _ (A L)), buffer_of_pcm_samples
    by exact H.
  destruct zs; [now contradiction Hne|reflexivity].
Qed.

(** X11.  The handshake.  After [connect] and until the socket opens,
    sending fails and nothing has been sent; the [open] event sends exactly
    the setup message, with the configured system instruction or, when
    that is absent or empty, the default one, and sets [isConnected]; from
    then on a text is sent as one client-content message. *)
Theorem handshake (s : Service) (text : string) :
  let r1 := connect s in
  let r2 := dispatch JSON_parse ToString ws_open_event (state_of r1) in
  let instruction :=
    match systemInstruction s with
    | Some t => if String.eqb t "" then default_instruction else t
    | None => default_instruction
    end in
  sendTextMessage text (state_of r1) = (state_of r1, [], inl not_connected)
  /\ sends (trace_of r1) = []
  /\ sends (trace_of r2) = [setupMessage instruction]
  /\ isConnected (state_of r2) = true
  /\ sendTextMessage text (state_of r2)
     = (state_of r2, [WebSocket_send (clientContentMessage text)], inr tt).
Proof.
  destruct s as [w si ic ac aq ip cs h live n].
  destruct si as [t|]; [destruct (String.eqb t "") eqn:E|]; run;
    rewrite ?E; repeat split.
Qed.

(** X12.  After [disconnect], and after the socket's [close] event, from
    every state: [isConnected] is false and both send methods fail with the
    not-connected error without sending. *)
Theorem sends_fail_after_closing (s : Service) (text : string)
        (others : Meanwhile) (audioBlob : list ascii) :
  let s1 := state_of (disconnect s) in
  let s2 := state_of (dispatch JSON_parse ToString ws_close_event s) in
  sendTextMessage text s1 = (s1, [], inl not_connected)
  /\ sendAudioMessage decodeAudioData startRendering maxArguments others
       audioBlob s1
     = (s1, [], inl not_connected)
  /\ sendTextMessage text s2 = (s2, [], inl not_connected)
  /\ sendAudioMessage decodeAudioData startRendering maxArguments others
       audioBlob s2
     = (s2, [], inl not_connected)
  /\ isConnected s1 = false /\ isConnected s2 = false.
Proof.
  destruct s as [w si ic ac aq ip cs [h1 h2 h3 h4 h5] live n].
  destruct w, ac, cs, h5; cbv; repeat split.
Qed.

(** X13.  [sendAudioMessage] on a transport that is open when it is
    called, whatever else runs during its awaits: it creates one 16 kHz
    audio context after the blob is read and closes it when the conversion
    is over, whether the conversion succeeds or not; it changes no field
    itself, so that the state it leaves is the one the other tasks left;
    and what it does last depends on the conversion and on the socket as
    it is then.  If decoding, resampling or the spread call of the
    encoding fails, or if the socket is then null or connecting, it logs
    the error and rethrows it without sending; if the socket is open it
    sends the frame as one realtime-input message; if the socket is
    closing or closed the frame is discarded silently. *)
Theorem conversion_context_is_closed
        (s : Service) (others : Meanwhile) (audioBlob : list ascii) :
  ws_open s = true ->
  let r := sendAudioMessage decodeAudioData startRendering maxArguments
             others audioBlob s in
  let r1 := while_reading others s in
  let r2 := while_converting others (state_of r1) in
  let r3 := while_closing others (state_of r2) in
  let failure e := [console_error "Error sending audio message:" e] in
  exists last,
    state_of r = state_of r3
    /\ trace_of r
       = trace_of r1 ++ AudioContext_new 16000 :: trace_of r2
         ++ AudioContext_close :: trace_of r3 ++ last
    /\ match decodeAudioData audioBlob with
       | None =>
           completion_of r = inl EncodingError /\ last = failure EncodingError
       | Some audioBuffer =>
           match encodeOutbound startRendering maxArguments audioBuffer with
           | inl e => completion_of r = inl e /\ last = failure e
           | inr frame =>
               match ws (state_of r3) with
               | None =>
                   completion_of r = inl TypeError /\ last = failure TypeError
               | Some CONNECTING =>
                   completion_of r = inl InvalidStateError
                   /\ last = failure InvalidStateError
               | Some OPEN =>
                   completion_of r = inr tt
                   /\ last = [WebSocket_send (realtimeInputMessage frame)]
               | Some _ => completion_of r = inr tt /\ last = []
               end
           end
       end.
Proof.
  intros Ho.
  unfold sendAudioMessage, convertAudioToPCM, ws_send, await, try_catch,
    try_finally, bind, gets, emit, lift, throw, ret, encodeOutbound, ebind,
    state_of, trace_of, completion_of.
  rewrite Ho. cbn [negb].
  destruct (while_reading others s) as [[s1 t1] c1]. cbn [fst snd].
  destruct (while_converting others s1) as [[s2 t2] c2]. cbn [fst snd].
  destruct (decodeAudioData audioBlob) as [audioBuffer|];
    [destruct (pcm_of_buffer startRendering audioBuffer) as [e|bytes]|];
    destruct (while_closing others s2) as [[s3 t3] c3]; cbn;
    [|destruct (base64_of_bytes maxArguments bytes) as [e|frame]; cbn;
      [|destruct (ws s3) as [[| | |]|]; cbn]|];
    (eexists; split; [reflexivity|]; split; [|split; reflexivity]);
    repeat first [rewrite app_nil_r | rewrite <- app_assoc
                 | rewrite <- app_comm_cons];
    reflexivity.
Qed.


Lemma for_each_app (A : Type) (l1 l2 : list A) (body : A -> M unit) (s : Service) :
  for_each (l1 ++ l2) body s
  = bind (for_each l1 body) (fun _ => for_each l2 body) s.
Proof.
  revert s. induction l1 as [|a l1 IH]; intros s.
  - cbn [app for_each]. unfold bind, ret.
    destruct (for_each l2 body s) as [[s2 t2] c2]. reflexivity.
  - cbn [app for_each]. unfold bind in *.
    destruct (body a s) as [[s1 t1] [e|[]]]; [reflexivity|].
    rewrite IH.
    destruct (for_each l1 body s1) as [[s2 t2] [e|[]]]; [reflexivity|].
    destruct (for_each l2 body s2) as [[s3 t3] c3].
    now rewrite app_assoc.
Qed.

Lemma parts_until_null (ps : list Part) (rest : list value) (s : Service) :
  for_each (map js_of_part ps ++ Null :: rest) (handlePart ToString) s
  = (let '(s1, t1, _) := for_each (map js_of_part ps) (handlePart ToString) s in
     (s1, t1, inl TypeError)).
Proof.
  pose proof (for_each_parts_step ToString ps s) as St.
  unfold Step, state_of, trace_of, completion_of in St.
  rewrite for_each_app. unfold bind at 1.
  destruct (for_each (map js_of_part ps) (handlePart ToString) s)
    as [[s1 t1] c1].
  cbn [fst snd] in St. destruct St as (-> & _).
  cbn. now rewrite app_nil_r.
Qed.

(** X14.  A [null] among the parts ends the handling of the message:
    the parts before it have been handled, the parts after it have not,
    and the turn-complete handler is not invoked although
    [turnComplete] is set; the [TypeError] is logged by [handleMessage]. *)
Theorem null_part_swallows_turn
        (s : Service) (data : string) (ps : list Part) (rest : list value) :
  JSON_parse data
  = Some (Obj [("serverContent",
                Obj [("modelTurn",
                      Obj [("parts", Arr (map js_of_part ps ++ Null :: rest))]);
                     ("turnComplete", Bool true)])]) ->
  let r := handleMessage JSON_parse ToString data s in
  completion_of r = inr tt
  /\ started (trace_of r) ++ audioQueue (state_of r) = audioQueue s ++ decoded ps
  /\ count is_turn_complete (trace_of r) = 0%nat
  /\ count is_citations (trace_of r) = 0%nat
  /\ exists t, trace_of r
               = t ++ [console_error "Error handling message:" TypeError].
Proof.
  intros Hp.
  pose proof (for_each_parts_step ToString ps s) as St.
  unfold Step, state_of, trace_of, completion_of in *.
  unfold handleMessage. rewrite Hp.
  unfold handleServerContent, try_catch, bind, lift, when, ret, invoke, gets, emit.
  cbn -[for_each handlePart count started].
  rewrite parts_until_null.
  destruct (for_each (map js_of_part ps) (handlePart ToString) s)
    as [[s1 t1] c1].
  cbn [fst snd] in St. destruct St as (-> & H1 & Q1 & T1 & G1).
  cbn -[count started].
  rewrite started_app, !count_app, T1, G1. cbn. rewrite app_nil_r.
  repeat split; auto. now exists t1.
Qed.

(** X15.  Without a [modelTurn], nothing of a server content but its
    [turnComplete] flag is looked at: no text, audio or citations callback
    is made, even if grounding metadata is present, and the state is
    unchanged. *)
Theorem content_outside_model_turn_is_ignored
        (s : Service) (data : string) (message fields : list (string * value)) :
  JSON_parse data = Some (Obj message) ->
  lookup "serverContent" message = Obj fields ->
  truthy (lookup "modelTurn" fields) = false ->
  let r := handleMessage JSON_parse ToString data s in
  completion_of r = inr tt
  /\ state_of r = s
  /\ callbacks (trace_of r)
     = (if truthy (lookup "turnComplete" fields)
           && has_onTurnComplete (handlers s)
        then [onTurnComplete] else [])
  /\ started (trace_of r) = [].
Proof.
  intros Hp Hs Hm.
  unfold handleMessage. rewrite Hp.
  unfold handleServerContent, invoke, try_catch, bind, lift, when, ret, gets, emit.
  cbn. rewrite Hs. cbn. rewrite Hm.
  destruct s as [w si ic ac aq ip cs [h1 h2 h3 h4 h5] live n]. cbn.
  destruct (truthy (lookup "turnComplete" fields)), h3,
           (truthy (lookup "setupComplete" message)); cbn; repeat split.
Qed.

End SessionExtras.

(** ** The consumer's state *)

Section HookFacts.

Variable ToString : value -> string.

Lemma fold_content (cs : list callback) :
  forall h1 h2,
    Hook.currentResponse h1 = Hook.currentResponse h2 ->
    Hook.citations h1 = Hook.citations h2 ->
    Hook.responseBuffer h1 = Hook.responseBuffer h2 ->
    let a := fold_left (Hook.consume ToString) cs h1 in
    let b := fold_left (Hook.consume ToString) (filter is_content cs) h2 in
    Hook.currentResponse a = Hook.currentResponse b
    /\ Hook.citations a = Hook.citations b
    /\ Hook.responseBuffer a = Hook.responseBuffer b.
Proof.
  induction cs as [|c cs IH]; intros h1 h2 H1 H2 H3; [cbn; auto|].
  destruct c; cbn [filter is_content fold_left]; apply IH; cbn; congruence.
Qed.

Lemma fold_texts (ts : list string) :
  forall h,
    let a := fold_left (Hook.consume ToString)
               (map (fun t => onTextResponse (Str t)) ts) h in
    Hook.responseBuffer a = (Hook.responseBuffer h ++ String.concat "" ts)%string
    /\ Hook.citations a = Hook.citations h
    /\ Hook.voiceState a = Hook.voiceState h
    /\ (ts <> [] -> Hook.currentResponse a = Hook.responseBuffer a)
    /\ (ts = [] -> Hook.currentResponse a = Hook.currentResponse h).
Proof.
  assert (Happ : forall a b c : string, ((a ++ b) ++ c = a ++ (b ++ c))%string).
  { intros a b c. induction a as [|x a IHa]; cbn; congruence. }
  assert (Hnil : forall a : string, (a ++ "" = a)%string).
  { intros a. induction a as [|x a IHa]; cbn; congruence. }
  induction ts as [|t ts IH]; intros h.
  - cbn. rewrite Hnil. repeat split; auto. intros H. now contradiction H.
  - cbn [map fold_left].
    set (h' := Hook.consume ToString h (onTextResponse (Str t))).
    assert (E1 : Hook.responseBuffer h' = (Hook.responseBuffer h ++ t)%string)
      by reflexivity.
    assert (E2 : Hook.citations h' = Hook.citations h) by reflexivity.
    assert (E3 : Hook.voiceState h' = Hook.voiceState h) by reflexivity.
    assert (E4 : Hook.currentResponse h' = Hook.responseBuffer h') by reflexivity.
    destruct (IH h') as (B & C & V & R1 & R2). clearbody h'.
    cbn zeta. rewrite B, C, V, E1, E2, E3. repeat split; try discriminate.
    + destruct ts as [|t' ts]; [cbn; now rewrite Hnil|].
      cbn [String.concat]. rewrite Happ. reflexivity.
    + intros _. destruct ts as [|t' ts].
      * rewrite (R2 eq_refl), E4, E1. cbn. now rewrite Hnil.
      * rewrite R1 by discriminate. rewrite B, E1. reflexivity.
Qed.


Lemma deliver_ends_with_turn (c : ServerContent) (s : Service) :
  sc_turnComplete c = true ->
  has_onTurnComplete (handlers s) = true ->
  exists t0, trace_of (deliver ToString c s) = t0 ++ [Invoke onTurnComplete].
Proof.
  destruct c as [ps gm tc]. cbn [sc_turnComplete]. intros -> Hh.
  pose proof (for_each_parts_step ToString ps s) as St.
  unfold Step, state_of, trace_of, completion_of in *.
  unfold deliver, handleMessage, parse_as, handleServerContent,
    js_of_message, js_of_serverContent.
  unfold invoke. unfold try_catch, bind, lift, when, ret, gets, emit.
  cbn [sc_parts sc_groundingMetadata sc_turnComplete].
  cbn -[for_each handlePart extractCitations js_of_metadata].
  destruct (for_each (map js_of_part ps) (handlePart ToString) s)
    as [[s1 t1] c1].
  cbn [fst snd] in *. destruct St as (-> & H1 & _).
  assert (Ht : forall m, truthy (js_of_metadata m) = true)
    by (intros [?|]; reflexivity).
  rewrite <- H1 in Hh. clear H1.
  destruct s1 as [w1 si1 ic1 ac1 aq1 ip1 cs1 [h1 h2 h3 h4 h5] live1 n1].
  cbn [handlers has_onTurnComplete] in Hh. subst h3.
  destruct gm as [m|];
    cbn -[extractCitations js_of_metadata];
    rewrite ?Ht, ?extractCitations_typed;
    cbn -[extractCitations js_of_metadata];
    destruct h2; cbn; rewrite ?app_nil_r; eexists; reflexivity.
Qed.

(** X17.  What the consumer shows.  After a message of the wire format:
    the response buffer is the previous buffer followed by the texts of the
    message, or empty if the message completes the turn;
    [currentResponse] follows it (unchanged if the message has no text);
    and the citations of the message are appended to those already held,
    also when the turn completes. *)
Theorem response_text_accumulates
        (c : ServerContent) (s : Service) (h : Hook.State) :
  has_onTextResponse (handlers s) = true ->
  has_onCitationsReceived (handlers s) = true ->
  has_onTurnComplete (handlers s) = true ->
  let h' := Hook.consume_trace ToString h (trace_of (deliver ToString c s)) in
  Hook.responseBuffer h'
  = (if sc_turnComplete c then ""
     else Hook.responseBuffer h ++ String.concat "" (texts (sc_parts c)))%string
  /\ Hook.currentResponse h'
     = (if sc_turnComplete c then ""
        else match texts (sc_parts c) with
             | [] => Hook.currentResponse h
             | _ => Hook.responseBuffer h ++ String.concat "" (texts (sc_parts c))
             end)%string
  /\ Hook.citations h'
     = Hook.citations h
       ++ match sc_groundingMetadata c with
          | Some m => map js_of_citation (lenient_extractCitations m)
          | None => []
          end.
Proof.
  intros H1 H2 H3.
  destruct (deliver_facts ToString c s) as (_ & _ & _ & _ & F).
  specialize (F H1 H2 H3).
  unfold Hook.consume_trace. cbn zeta.
  destruct (fold_content (callbacks (trace_of (deliver ToString c s)))
              h h eq_refl eq_refl eq_refl) as (R & C & B).
  rewrite R, C, B, F. clear R C B F.
  unfold due_callbacks. rewrite !fold_left_app.
  destruct (fold_texts (texts (sc_parts c)) h) as (B & C & V & R1 & R2).
  set (a := fold_left (Hook.consume ToString)
              (map (fun t => onTextResponse (Str t)) (texts (sc_parts c))) h) in *.
  clearbody a.
  assert (Hc : Hook.currentResponse a
               = match texts (sc_parts c) with
                 | [] => Hook.currentResponse h
                 | _ => (Hook.responseBuffer h
                         ++ String.concat "" (texts (sc_parts c)))%string
                 end).
  { destruct (texts (sc_parts c)) as [|t ts] eqn:E.
    - now apply R2.
    - rewrite R1 by discriminate. exact B. }
  destruct (sc_groundingMetadata c) as [m|], (sc_turnComplete c); cbn;
    rewrite ?B, ?C, ?Hc, ?app_nil_r; repeat split; reflexivity.
Qed.

(** X18.  A message that carries audio and completes the turn leaves the
    consumer's voice state [idle] while the service is playing: the
    turn-complete handler runs after the playback-start handler. *)
Theorem idle_while_playing
        (c : ServerContent) (s : Service) (h : Hook.State) :
  sc_turnComplete c = true ->
  decoded (sc_parts c) <> [] ->
  has_onTurnComplete (handlers s) = true ->
  let r := deliver ToString c s in
  isPlaying (state_of r) = true
  /\ Hook.voiceState (Hook.consume_trace ToString h (trace_of r)) = Hook.idle.
Proof.
  intros Ht Hd Hh. cbn zeta. split.
  - destruct (deliver_facts ToString c s) as (_ & _ & _ & P & _).
    rewrite P. destruct (decoded (sc_parts c)); [now contradiction Hd|].
    apply orb_true_r.
  - destruct (deliver_ends_with_turn c s Ht Hh) as (t0 & ->).
    unfold Hook.consume_trace. rewrite callbacks_app, fold_left_app. reflexivity.
Qed.

End HookFacts.

(** ** The request/response service *)

Section AIServiceFacts.

Variable ToString : value -> string.

Lemma get_truthy (v : value) (k : string) :
  truthy v = true -> get v k = inr (AIService.opt_get v k).
Proof. destruct v; try discriminate; reflexivity. Qed.

Lemma opt_get_falsy (v : value) (k : string) :
  truthy v = false -> AIService.opt_get v k = Undefined.
Proof. destruct v; try discriminate; reflexivity. Qed.

(** X19.  [AIService.sendTextMessage] never returns an empty text: when it
    returns, the text is truthy (the apology stands in for a missing or
    empty one). *)
Theorem response_text_is_never_empty (data : value) (r : AIService.AIResponse) :
  AIService.process ToString data = inr r ->
  truthy (AIService.text r) = true.
Proof.
  unfold AIService.process.
  destruct (get data "error") as [e|error]; [discriminate|]. cbn [ebind].
  destruct (truthy error); [discriminate|].
  destruct (get data "candidates") as [e|candidates]; [discriminate|].
  cbn [ebind].
  match goal with |- context [ebind ?m _] => destruct m as [e|cs] end;
    [discriminate|].
  cbn [ebind]. intros H. injection H as <-. cbn [AIService.text].
  unfold or_else.
  match goal with |- context [if truthy ?x then _ else _] =>
    destruct (truthy x) eqn:E end; [exact E|reflexivity].
Qed.

(** X20.  The two citation extractors agree: the citations that
    [AIService.sendTextMessage] returns are those that [extractCitations]
    of the live service gives for the first candidate's grounding
    metadata, and none when the candidate has no such metadata. *)
Theorem citations_agree_with_live_service
        (data candidates : value) (r : AIService.AIResponse) :
  get data "candidates" = inr candidates ->
  AIService.process ToString data = inr r ->
  let groundingMetadata :=
    AIService.opt_get (AIService.opt_index0 candidates) "groundingMetadata" in
  if truthy groundingMetadata
  then extractCitations groundingMetadata = inr (AIService.citations r)
  else AIService.citations r = [].
Proof.
  intros Hc. unfold AIService.process.
  destruct (get data "error") as [e|error]; [discriminate|]. cbn [ebind].
  destruct (truthy error); [discriminate|].
  rewrite Hc. cbn [ebind]. cbn zeta.
  set (gm := AIService.opt_get (AIService.opt_index0 candidates) "groundingMetadata").
  destruct (truthy gm) eqn:Eg.
  - unfold extractCitations. rewrite (get_truthy gm _ Eg). cbn [ebind].
    destruct (truthy (AIService.opt_get gm "groundingAttributions")).
    + match goal with |- context [ebind ?m _] => destruct m as [e|cs] end;
        [discriminate|].
      cbn [ebind]. intros H. injection H as <-. reflexivity.
    + cbn [ebind]. intros H. injection H as <-. reflexivity.
  - rewrite (opt_get_falsy gm _ Eg). cbn.
    intros H. injection H as <-. reflexivity.
Qed.

End AIServiceFacts.

(** ** Fragments and citations, whatever the input *)

Section FragmentFacts.

Variable ToString : value -> string.

(** X21.  Whatever makes the decoding of an inbound fragment fail (a
    payload that is not base64, an odd or zero number of bytes, data that
    is not a string), [handleAudioResponse] logs the failure and returns
    normally, having changed nothing but the audio context, which it
    creates if there was none. *)
Theorem undecodable_fragment_is_dropped
        (s : Service) (audioData : value) (e : exn) :
  decodeInbound (to_string ToString audioData) = inl e ->
  handleAudioResponse ToString audioData s
  = (with_context s,
     context_trace s ++ [console_error "Error handling audio response:" e],
     inr tt).
Proof.
  unfold decodeInbound. intros H.
  destruct s as [w si ic ac aq ip cs h live n]. run.
  destruct (Base64.atob (to_string ToString audioData)) as [binaryData|].
  - destruct ac; cbn; rewrite H; reflexivity.
  - injection H as <-. destruct ac; reflexivity.
Qed.

Lemma Z_of_byte_range (b : ascii) : (0 <= Z_of_byte b < 256)%Z.
Proof.
  unfold Z_of_byte. pose proof (N_ascii_bounded b). lia.
Qed.

Lemma int16_of_bytes_range (lo hi : ascii) :
  (-32768 <= int16_of_bytes lo hi <= 32767)%Z.
Proof.
  unfold int16_of_bytes.
  pose proof (Z_of_byte_range lo). pose proof (Z_of_byte_range hi).
  destruct (Z.ltb_spec (Z_of_byte lo + 256 * Z_of_byte hi) 32768); lia.
Qed.

Lemma Int16Array_view (bs : list ascii) :
  forall zs, Int16Array_of_buffer bs = Some zs ->
             List.length bs = (2 * List.length zs)%nat
             /\ Forall (fun z => (-32768 <= z <= 32767)%Z) zs.
Proof.
  revert bs. fix IH 1. intros [|lo [|hi rest]] zs H.
  - injection H as <-. split; [reflexivity|constructor].
  - discriminate.
  - change (Int16Array_of_buffer (lo :: hi :: rest))
      with (match Int16Array_of_buffer rest with
            | Some l => Some (int16_of_bytes lo hi :: l)
            | None => None
            end) in H.
    destruct (Int16Array_of_buffer rest) as [l|] eqn:E; [|discriminate].
    injection H as <-. destruct (IH rest l E) as [Hl Hf]. split.
    + cbn [List.length]. lia.
    + constructor; [apply int16_of_bytes_range|exact Hf].
Qed.

(** X22.  A fragment that decodes gives a mono buffer at 24 kHz with one
    sample for every two bytes of the payload, at least one, and every
    sample is a number in [[-1, 1)]. *)
Theorem decoded_buffer_shape (d binaryData : string) (b : AudioBuffer) :
  Base64.atob d = Some binaryData ->
  decodeInbound d = inr b ->
  sampleRate b = 24000%Z
  /\ otherChannels b = []
  /\ String.length binaryData = (2 * List.length (channel0 b))%nat
  /\ channel0 b <> []
  /\ forall y, In y (channel0 b) ->
               exists q, y = Fin q /\ (-1 <= q)%Q /\ (q < 1)%Q.
Proof.
  unfold decodeInbound, buffer_of_pcm. intros Ha. rewrite Ha.
  destruct (Int16Array_of_buffer (list_ascii_of_string binaryData))
    as [zs|] eqn:E; [|discriminate].
  destruct (Int16Array_view _ _ E) as [Hl Hf].
  rewrite length_list_ascii_of_string in Hl.
  unfold createBuffer.
  destruct (List.length zs) as [|k] eqn:Ek; [discriminate|].
  cbn [ebind]. intros H. injection H as <-.
  cbn [fill_channel0 sampleRate otherChannels channel0].
  split; [reflexivity|]. split; [reflexivity|].
  split; [rewrite length_map, Ek; exact Hl|].
  split; [destruct zs; discriminate|].
  intros y Hy. {  apply in_map_iff in Hy. destruct Hy as (x & <- & Hx).
    rewrite Forall_forall in Hf. specialize (Hf x Hx).
    exists (x # 32768)%Q. split; [reflexivity|].
    unfold Qle, Qlt. simpl. lia. }
Qed.

Lemma handleAudioResponse_starts (s : Service) (d : string) (b : AudioBuffer) :
  isPlaying s = false ->
  audioQueue s = [] ->
  decodeInbound d = inr b ->
  let r := handleAudioResponse ToString (Str d) s in
  completion_of r = inr tt
  /\ started (trace_of r) = [b]
  /\ context_opened (trace_of r)
     = match audioContext s with None => 1%nat | Some _ => 0%nat end
  /\ isPlaying (state_of r) = true
  /\ audioContext (state_of r) <> None
  /\ ws (state_of r) = ws s
  /\ isConnected (state_of r) = isConnected s.
Proof.
  destruct s as [w si ic ac aq ip cs [h1 h2 h3 h4 h5] live n].
  unfold decodeInbound. cbn [isPlaying audioQueue]. intros -> -> H.
  destruct (Base64.atob d) as [binaryData|] eqn:A; [|discriminate].
  run. rewrite A. cbn.
  destruct ac, h4; cbn; rewrite H; cbn; repeat split; discriminate.
Qed.

Lemma disconnect_clears (s : Service) :
  let s1 := state_of (disconnect s) in
  ws s1 = None /\ isConnected s1 = false /\ audioContext s1 = None
  /\ audioQueue s1 = [] /\ isPlaying s1 = false.
Proof.
  destruct s as [w si ic ac aq ip cs [h1 h2 h3 h4 h5] live n].
  destruct w, ac, cs, h5; cbv; repeat split.
Qed.

(** X23.  [disconnect] does not silence a fragment that is handled after
    it: from every state, a decodable fragment handled after [disconnect]
    creates a new audio context and starts playing at once, though the
    service stays disconnected. *)
Theorem audio_after_disconnect_still_plays
        (s : Service) (d : string) (b : AudioBuffer) :
  decodeInbound d = inr b ->
  let s1 := state_of (disconnect s) in
  let r := handleAudioResponse ToString (Str d) s1 in
  completion_of r = inr tt
  /\ started (trace_of r) = [b]
  /\ context_opened (trace_of r) = 1%nat
  /\ isPlaying (state_of r) = true
  /\ audioContext (state_of r) <> None
  /\ ws (state_of r) = None
  /\ isConnected (state_of r) = false.
Proof.
  intros H. cbn zeta.
  destruct (disconnect_clears s) as (W & C & A & Q & P).
  destruct (handleAudioResponse_starts (state_of (disconnect s)) d b P Q H)
    as (R1 & R2 & R3 & R4 & R5 & R6 & R7).
  rewrite A in R3. rewrite W in R6. rewrite C in R7. auto 10.
Qed.

Lemma citation_of_facts (attr : value) (cs : list GroundingCitation) :
  citation_of attr = inr cs ->
  (List.length cs <= 1)%nat
  /\ forall c, In c cs -> truthy (title c) = true.
Proof.
  unfold citation_of.
  destruct (get attr "segment") as [e|segment]; [discriminate|]. cbn [ebind].
  destruct (and_then segment (get attr "web")) as [e|both]; [discriminate|].
  cbn [ebind]. destruct (truthy both).
  - destruct (get attr "web") as [e|web]; [discriminate|]. cbn [ebind].
    destruct (get segment "startIndex") as [e|si]; [discriminate|]. cbn [ebind].
    destruct (get segment "endIndex") as [e|ei]; [discriminate|]. cbn [ebind].
    destruct (get web "uri") as [e|u]; [discriminate|]. cbn [ebind].
    destruct (get web "title") as [e|t]; [discriminate|]. cbn [ebind].
    intros H. injection H as <-. split; [cbn; lia|].
    intros c [<-|[]]. cbn [title]. unfold or_else.
    destruct (truthy t) eqn:E; [exact E|reflexivity].
  - intros H. injection H as <-. split; [cbn; lia|]. intros c [].
Qed.

Lemma push_citations_facts (attrs : list value) :
  forall cs, push_citations attrs = inr cs ->
             (List.length cs <= List.length attrs)%nat
             /\ forall c, In c cs -> truthy (title c) = true.
Proof.
  induction attrs as [|attr attrs IH]; intros cs H.
  - injection H as <-. split; [cbn; lia|]. intros c [].
  - cbn [push_citations] in H.
    destruct (citation_of attr) as [e|c1] eqn:E1; [discriminate|]. cbn [ebind] in H.
    destruct (push_citations attrs) as [e|c2]; [discriminate|]. cbn [ebind] in H.
    injection H as <-.
    destruct (citation_of_facts _ _ E1) as [L1 T1].
    destruct (IH c2 eq_refl) as [L2 T2]. split.
    + rewrite length_app. cbn [List.length]. lia.
    + intros c Hc. apply in_app_iff in Hc. destruct Hc; auto.
Qed.

(** X24.  On every input, of the wire format or not, for which
    [extractCitations] returns: every citation has a non-empty (truthy)
    title, and there are at most as many citations as attribution
    entries, none if [groundingAttributions] is not an array. *)
Theorem citations_are_bounded_and_titled
        (groundingMetadata : value) (cs : list GroundingCitation) :
  extractCitations groundingMetadata = inr cs ->
  (forall c, In c cs -> truthy (title c) = true)
  /\ match get groundingMetadata "groundingAttributions" with
     | inr (Arr attrs) => (List.length cs <= List.length attrs)%nat
     | _ => cs = []
     end.
Proof.
  unfold extractCitations.
  destruct (get groundingMetadata "groundingAttributions") as [e|attributions];
    [discriminate|].
  cbn [ebind]. destruct (truthy attributions) eqn:Et.
  - destruct attributions as [| |b|x|x|attrs|fields]; try discriminate.
    cbn [forEach_items ebind]. intros H.
    destruct (push_citations_facts attrs cs H) as [L T]. auto.
  - intros H. injection H as <-. split; [intros c []|].
    destruct attributions; try reflexivity; discriminate.
Qed.

End FragmentFacts.

(** ** The further properties on sample runs *)

Section ExtraRuns.

Lemma int16_frame_roundtrip_witness :
  (exists frame,
      base64_of_bytes argument_limit (Int16Array_buffer [-32768; 32767; 0]%Z)
      = inr frame
      /\ decodeInbound frame
         = inr (mkAudioBuffer 24000 (map float_sample [-32768; 32767; 0]%Z) []))
  /\ base64_of_bytes 4 (Int16Array_buffer [-32768; 32767; 0]%Z)
     = inl RangeError.
Proof.
  split.
  - apply (int16_frame_roundtrip argument_limit [-32768; 32767; 0]%Z).
    + discriminate.
    + repeat constructor; lia.
    + apply Nat.leb_le. vm_compute. reflexivity.
  - apply (int16_frame_roundtrip 4 [-32768; 32767; 0]%Z).
    + discriminate.
    + repeat constructor; lia.
    + simpl. lia.
Defined.

Lemma pcm_sample_saturates_witness :
  pcm_sample (Fin 2) = 32767%Z /\ pcm_sample (Fin (-3 # 2)) = (-32767)%Z.
Proof.
  destruct pcm_sample_saturates as (H1 & H2 & _). split.
  - apply (H1 2%Q). vm_compute. discriminate.
  - apply (H2 (-3 # 2)%Q). vm_compute. discriminate.
Defined.

Lemma pcm_sample_monotone_witness :
  (pcm_sample (Fin (1 # 4)) <= pcm_sample (Infinity false))%Z.
Proof.
  apply (pcm_sample_monotone (Fin (1 # 4)) (Infinity false)). reflexivity.
Defined.

Lemma reencoding_loses_one_step_witness :
  pcm_sample (float_sample (-32768)) = toward_zero (-32768).
Proof.
  apply (reencoding_loses_one_step (-32768)). lia.
Defined.

Lemma playback_never_overlaps_witness :
  let r := for_each [ws_message_event "first"; source_ended_event 0;
                     ws_message_event "second"]
             (dispatch (parse_as (Some (js_of_message two_audio_parts)))
                       no_ToString) idle_service in
  completion_of r = inr tt
  /\ playback_ok (state_of r)
  /\ (List.length (liveSources (state_of r)) <= 1)%nat.
Proof.
  apply (playback_never_overlaps
           (parse_as (Some (js_of_message two_audio_parts))) no_ToString
           [ws_message_event "first"; source_ended_event 0;
            ws_message_event "second"] idle_service).
  unfold playback_ok. simpl. split; reflexivity.
Defined.

Lemma queue_drains_in_order_witness :
  let r := drain no_ToString 2 playing_service in
  completion_of r = inr tt
  /\ started (trace_of r) = [sample_buffer 3]
  /\ audioQueue (state_of r) = []
  /\ isPlaying (state_of r) = false
  /\ liveSources (state_of r) = []
  /\ count is_playback_start (trace_of r) = 1%nat
  /\ count is_playback_complete (trace_of r) = 1%nat.
Proof.
  apply (queue_drains_in_order no_ToString [sample_buffer 3] playing_service);
    try reflexivity.
  unfold playback_ok. simpl. repeat split; discriminate.
Defined.

Lemma barge_in_overlaps_witness :
  let r := barge_in no_ToString 0 payload_two_samples payload_one_sample
             playing_service in
  completion_of r = inr tt
  /\ stopped (trace_of r) = [0%nat]
  /\ started (trace_of r)
     = [mkAudioBuffer 24000 [float_sample 256; float_sample (-254)] [];
        sample_buffer 32767]
  /\ liveSources (state_of r) = [2%nat; 1%nat]
  /\ isPlaying (state_of r) = true.
Proof.
  apply (barge_in_overlaps no_ToString playing_service 0
           payload_two_samples payload_one_sample); try reflexivity.
  - unfold playback_ok. simpl. repeat split; discriminate.
  - simpl. lia.
Defined.

Lemma conversion_context_is_closed_witness :
  let others := mkMeanwhile (ret tt) disconnect (ret tt) in
  let r := sendAudioMessage (decodes_as recording) same_buffer argument_limit
             others [] idle_service in
  exists last,
    state_of r = state_of (disconnect idle_service)
    /\ trace_of r
       = [AudioContext_new 16000] ++ trace_of (disconnect idle_service)
         ++ [AudioContext_close] ++ last
    /\ completion_of r = inl TypeError
    /\ last = [console_error "Error sending audio message:" TypeError].
Proof.
  apply (conversion_context_is_closed (decodes_as recording) same_buffer
           argument_limit idle_service
           (mkMeanwhile (ret tt) disconnect (ret tt)) []).
  reflexivity.
Defined.

Lemma null_part_swallows_turn_witness :
  let r := handleMessage (parse_as (Some null_among_parts)) no_ToString
             "null part" idle_service in
  completion_of r = inr tt
  /\ started (trace_of r) ++ audioQueue (state_of r)
     = audioQueue idle_service ++ decoded [AudioPart payload_one_sample]
  /\ count is_turn_complete (trace_of r) = 0%nat
  /\ count is_citations (trace_of r) = 0%nat
  /\ exists t, trace_of r
               = t ++ [console_error "Error handling message:" TypeError].
Proof.
  apply (null_part_swallows_turn (parse_as (Some null_among_parts)) no_ToString
           idle_service "null part" [AudioPart payload_one_sample]
           [js_of_part (TextPart "late")]).
  reflexivity.
Defined.

Lemma content_outside_model_turn_is_ignored_witness :
  let r := handleMessage
             (parse_as (Some (Obj [("serverContent", Obj orphan_metadata)])))
             no_ToString "no model turn" idle_service in
  completion_of r = inr tt
  /\ state_of r = idle_service
  /\ callbacks (trace_of r) = [onTurnComplete]
  /\ started (trace_of r) = [].
Proof.
  apply (content_outside_model_turn_is_ignored
           (parse_as (Some (Obj [("serverContent", Obj orphan_metadata)])))
           no_ToString idle_service "no model turn"
           [("serverContent", Obj orphan_metadata)] orphan_metadata);
    reflexivity.
Defined.

Lemma content_callbacks_in_order_witness :
  filter is_content
    (callbacks
       (trace_of (handleMessage (parse_as (Some (js_of_message grounded_reply)))
                    no_ToString "grounded reply" idle_service)))
  = due_callbacks grounded_reply.
Proof.
  apply (content_callbacks_in_order no_ToString
           (parse_as (Some (js_of_message grounded_reply)))
           idle_service "grounded reply" grounded_reply); reflexivity.
Defined.

Lemma response_text_accumulates_witness :
  let h' := Hook.consume_trace no_ToString hook_waiting
              (trace_of (deliver no_ToString grounded_reply idle_service)) in
  Hook.responseBuffer h' = "Hello there"
  /\ Hook.currentResponse h' = "Hello there"
  /\ Hook.citations h'
     = map js_of_citation (lenient_extractCitations example_metadata).
Proof.
  apply (response_text_accumulates no_ToString grounded_reply idle_service
           hook_waiting); reflexivity.
Defined.

Lemma idle_while_playing_witness :
  let r := deliver no_ToString two_audio_parts idle_service in
  isPlaying (state_of r) = true
  /\ Hook.voiceState (Hook.consume_trace no_ToString hook_waiting (trace_of r))
     = Hook.idle.
Proof.
  apply (idle_while_playing no_ToString two_audio_parts idle_service
           hook_waiting); try reflexivity.
  vm_compute. discriminate.
Defined.

Lemma response_text_is_never_empty_witness :
  AIService.process no_ToString (Obj [])
  = inr (AIService.mkAIResponse (Str AIService.apology) [])
  /\ truthy (Str AIService.apology) = true.
Proof.
  split; [reflexivity|].
  apply (response_text_is_never_empty no_ToString (Obj [])
           (AIService.mkAIResponse (Str AIService.apology) [])).
  reflexivity.
Defined.

Lemma citations_agree_with_live_service_witness :
  AIService.process no_ToString gemini_reply
  = inr (AIService.mkAIResponse (Str "Hello")
           (map js_of_citation (lenient_extractCitations example_metadata)))
  /\ extractCitations (js_of_metadata example_metadata)
     = inr (map js_of_citation (lenient_extractCitations example_metadata)).
Proof.
  split; [reflexivity|].
  apply (citations_agree_with_live_service no_ToString gemini_reply
           (Arr [Obj [("content",
                       Obj [("parts", Arr [Obj [("text", Str "Hello")]])]);
                      ("groundingMetadata", js_of_metadata example_metadata)]])
           (AIService.mkAIResponse (Str "Hello")
              (map js_of_citation (lenient_extractCitations example_metadata))));
    reflexivity.
Defined.

Lemma undecodable_fragment_is_dropped_witness :
  decodeInbound "not base64!" = inl InvalidCharacterError
  /\ handleAudioResponse no_ToString (Str "not base64!") idle_service
     = (with_context idle_service,
        context_trace idle_service
        ++ [console_error "Error handling audio response:" InvalidCharacterError],
        inr tt).
Proof.
  split; [reflexivity|].
  apply (undecodable_fragment_is_dropped no_ToString idle_service
           (Str "not base64!") InvalidCharacterError).
  reflexivity.
Defined.

Lemma decoded_buffer_shape_witness :
  let b := mkAudioBuffer 24000 [float_sample 16961; float_sample 17475] [] in
  sampleRate b = 24000%Z
  /\ otherChannels b = []
  /\ String.length "ABCD" = (2 * List.length (channel0 b))%nat
  /\ channel0 b <> []
  /\ forall y, In y (channel0 b) ->
               exists q, y = Fin q /\ (-1 <= q)%Q /\ (q < 1)%Q.
Proof.
  apply (decoded_buffer_shape "QUJDRA==" "ABCD"
           (mkAudioBuffer 24000 [float_sample 16961; float_sample 17475] []));
    reflexivity.
Defined.

Lemma audio_after_disconnect_still_plays_witness :
  let s1 := state_of (disconnect playing_service) in
  let r := handleAudioResponse no_ToString (Str payload_one_sample) s1 in
  completion_of r = inr tt
  /\ started (trace_of r) = [sample_buffer 32767]
  /\ context_opened (trace_of r) = 1%nat
  /\ isPlaying (state_of r) = true
  /\ audioContext (state_of r) <> None
  /\ ws (state_of r) = None
  /\ isConnected (state_of r) = false.
Proof.
  apply (audio_after_disconnect_still_plays no_ToString playing_service
           payload_one_sample (sample_buffer 32767)).
  reflexivity.
Defined.

Lemma citations_are_bounded_and_titled_witness :
  (forall c,
      In c (map js_of_citation (lenient_extractCitations example_metadata)) ->
      truthy (title c) = true)
  /\ (List.length (map js_of_citation (lenient_extractCitations example_metadata))
      <= 2)%nat.
Proof.
  apply (citations_are_bounded_and_titled (js_of_metadata example_metadata)
           (map js_of_citation (lenient_extractCitations example_metadata))).
  reflexivity.
Defined.

End ExtraRuns.
